(** * goloop: vote lists, signed messages and IISS accounts

    A shallow embedding of
    - [consensus/votelist.go]  ([voteList.Verify], [Bytes], [newVoteList],
      [NewVoteListFromBytes]),
    - the signed base of consensus messages ([signedBase.hash],
      [publicKey], [address], [verify]),
    - [icon/iiss/icstate/account.go] ([Account.Clone], [Account.Equal],
      [Account.SetStake]),
    together with the properties the specification states about them. *)

From Stdlib Require Import ZArith List Bool Lia.
From Stdlib.Strings Require Import Byte.
From stdpp Require Import base option list gmap strings.
Import ListNotations.
Local Open Scope Z_scope.

(** ** Go scalars *)

Module golang.

(** Go's [int] on the 64-bit targets the node is built for: a signed
    64-bit integer whose arithmetic wraps around. *)
Definition int_bits : Z := 64.
Definition max_int : Z := 2 ^ (int_bits - 1) - 1.
Definition min_int : Z := - 2 ^ (int_bits - 1).

Definition wrap_int (z : Z) : Z :=
  (z + 2 ^ (int_bits - 1)) mod 2 ^ int_bits - 2 ^ (int_bits - 1).

Definition int_mul (a b : Z) : Z := wrap_int (a * b).

(** Go's [/] on integers truncates toward zero; the one overflowing case
    ([min_int / -1]) wraps. *)
Definition int_div (a b : Z) : Z := wrap_int (Z.quot a b).

(** [len] of a slice. *)
Definition len {A} (l : list A) : Z := Z.of_nat (length l).

(** What a call yields: a value, or a run-time panic that unwinds the
    goroutine. *)
Inductive Res (P A : Type) : Type :=
| Ret (a : A)
| Panic (p : P).
Arguments Ret {P A} a.
Arguments Panic {P A} p.

End golang.
Import golang.

#[global] Instance byte_eq_dec : EqDecision byte := Byte.byte_eq_dec.

(** ** package common *)

Module common.

Definition bytes : Type := list byte.

(** [common.Signature]: the serialized signature. *)
Definition Signature : Type := list byte.

(** [common.Address]: the serialized account address. *)
Definition Address : Type := list byte.

(** [bytes.Equal]: equality of contents (a nil slice equals an empty one,
    both are [[]] here). *)
Definition bytes_Equal (a b : bytes) : bool :=
  bool_decide (a = b).

End common.

(** ** package crypto: the collaborators the consensus code calls *)

Module crypto.

(** [crypto.PublicKey]: the serialized public key. *)
Definition PublicKey : Type := list byte.

(** The three primitives used by the signed base.  Their implementation
    (SHA3, secp256k1 recovery) is outside this development; every result
    below holds for any implementation.
    [SHA3Sum256] returns a digest, which is never the nil slice;
    [RecoverPublicKey] returns [None] where the Go function returns a
    non-nil error. *)
Class Suite : Type := {
  SHA3Sum256 : common.bytes -> common.bytes;
  RecoverPublicKey : common.Signature -> common.bytes -> option PublicKey;
  NewAccountAddressFromPublicKey : PublicKey -> common.Address
}.

End crypto.

(** ** Calls that leave the function under study *)

(** The calls a consensus function makes to its collaborators, in program
    order.  The trace lets a statement say that a digest was not recomputed
    or that no validator lookup took place. *)
Inductive Event : Type :=
| EvSHA3Sum256 (data : common.bytes)
| EvRecoverPublicKey (sig : common.Signature) (hash : common.bytes)
| EvNextValidators
| EvIndexOf (addr : option common.Address)
| EvLen
| EvPrintln.

#[global] Instance Event_eq_dec : EqDecision Event.
Proof. solve_decision. Defined.

(** A method with a pointer receiver of type [S]: it reads and updates the
    receiver and records the calls it makes. *)
Definition Op (S A : Type) : Type := S -> A * S * list Event.

Definition op_ret {S A} (a : A) : Op S A := fun s => (a, s, []).

Definition op_bind {S A B} (m : Op S A) (k : A -> Op S B) : Op S B :=
  fun s =>
    let '(a, s1, t1) := m s in
    let '(b, s2, t2) := k a s1 in
    (b, s2, t1 ++ t2).

Definition op_get {S} : Op S S := fun s => (s, s, []).
Definition op_put {S} (s' : S) : Op S unit := fun _ => (tt, s', []).
Definition op_emit {S} (e : Event) : Op S unit := fun s => (tt, s, [e]).

Notation "'let*' x ':=' c 'in' k" := (op_bind c (fun x => k))
  (at level 10, x name, c at level 100, k at level 200).
Notation "c ';;;' k" := (op_bind c (fun _ => k))
  (at level 100, k at level 200, right associativity).

Definition op_value {S A} (r : A * S * list Event) : A := fst (fst r).
Definition op_state {S A} (r : A * S * list Event) : S := snd (fst r).
Definition op_trace {S A} (r : A * S * list Event) : list Event := snd r.

(** Number of digest computations in a trace. *)
Definition is_digest (e : Event) : bool :=
  match e with EvSHA3Sum256 _ => true | _ => false end.

Definition digests (t : list Event) : nat :=
  length (List.filter is_digest t).

Definition is_recovery (e : Event) : bool :=
  match e with EvRecoverPublicKey _ _ => true | _ => false end.

(** Number of key recoveries in a trace. *)
Definition recoveries (t : list Event) : nat :=
  length (List.filter is_recovery t).

(** ** package consensus: the signed base of every consensus message *)

Module consensus.

(** The errors of the package, carrying what their message prints. *)
Inductive error : Type :=
| BadSignature                                     (* "bad signature" *)
| UnexpectedVoters                                 (* "voters for height 1" *)
| BadVoter (addr : option common.Address) (i : Z)  (* "bad voter %x at index %d in vote list" *)
| InsufficientVotes (votes validators : Z).        (* "votes(%d) <= 2/3 of validators(%d)" *)

#[global] Instance error_eq_dec : EqDecision error.
Proof. solve_decision. Defined.

(** [type byteser interface { bytes() []byte }] *)
Class byteser (P : Type) : Type := bytes : P -> common.bytes.

(** [type signedBase struct]: [_byteser] is the object whose bytes are
    signed (the comment in the source requires it to be initialized, so it
    is always present here); a nil [_hash] or [_publicKey] is [None]. *)
Record signedBase (P : Type) : Type := mk_signedBase {
  _byteser : P;
  Signature : common.Signature;
  _hash : option common.bytes;
  _publicKey : option crypto.PublicKey
}.
Arguments mk_signedBase {P}.
Arguments _byteser {P}.
Arguments Signature {P}.
Arguments _hash {P}.
Arguments _publicKey {P}.

Definition set_Signature {P} (sig : common.Signature) (s : signedBase P) : signedBase P :=
  mk_signedBase (_byteser s) sig (_hash s) (_publicKey s).
Definition set_hash {P} (h : option common.bytes) (s : signedBase P) : signedBase P :=
  mk_signedBase (_byteser s) (Signature s) h (_publicKey s).
Definition set_publicKey {P} (k : option crypto.PublicKey) (s : signedBase P) : signedBase P :=
  mk_signedBase (_byteser s) (Signature s) (_hash s) k.
Definition set_byteser {P} (p : P) (s : signedBase P) : signedBase P :=
  mk_signedBase p (Signature s) (_hash s) (_publicKey s).

Section SignedBase.
Context `{CS : crypto.Suite} {P : Type} `{BS : byteser P}.

(** [func (s *signedBase) hash() []byte] *)
Definition hash : Op (signedBase P) common.bytes :=
  let* s := op_get in
  match _hash s with
  | None =>
      let data := bytes (_byteser s) in
      op_emit (EvSHA3Sum256 data) ;;;
      let h := crypto.SHA3Sum256 data in
      op_put (set_hash (Some h) s) ;;;
      op_ret h
  | Some h => op_ret h
  end.

(** [func (s *signedBase) publicKey() *crypto.PublicKey] *)
Definition publicKey : Op (signedBase P) (option crypto.PublicKey) :=
  let* s := op_get in
  match _publicKey s with
  | None =>
      let* h := hash in
      op_emit (EvRecoverPublicKey (Signature s) h) ;;;
      match crypto.RecoverPublicKey (Signature s) h with
      | None => op_ret None
      | Some publicKey =>
          let* s1 := op_get in
          op_put (set_publicKey (Some publicKey) s1) ;;;
          op_ret (Some publicKey)
      end
  | Some k => op_ret (Some k)
  end.

(** [func (s *signedBase) address() *common.Address] *)
Definition address : Op (signedBase P) (option common.Address) :=
  let* publicKey := publicKey in
  match publicKey with
  | None => op_ret None
  | Some k => op_ret (Some (crypto.NewAccountAddressFromPublicKey k))
  end.

(** [func (s *signedBase) verify() error] *)
Definition verify : Op (signedBase P) (option error) :=
  let* publicKey := publicKey in
  match publicKey with
  | None => op_ret (Some BadSignature)
  | Some _ => op_ret None
  end.

(** The digest [hash] hands out on [s]: the memoized one if there is
    one, the digest of the payload otherwise. *)
Definition digest_of (s : signedBase P) : common.bytes :=
  match _hash s with
  | Some h => h
  | None => crypto.SHA3Sum256 (bytes (_byteser s))
  end.

(** The methods of a signed message. *)
Inductive method : Type := call_hash | call_publicKey | call_address | call_verify.

(** Calls [ms] in order on one message and collects what each [hash]
    call returned. *)
Fixpoint calls (ms : list method) : Op (signedBase P) (list common.bytes) :=
  match ms with
  | [] => op_ret []
  | call_hash :: ms' =>
      let* h := hash in
      let* hs := calls ms' in
      op_ret (h :: hs)
  | call_publicKey :: ms' => publicKey ;;; calls ms'
  | call_address :: ms' => address ;;; calls ms'
  | call_verify :: ms' => verify ;;; calls ms'
  end.

(** The memoized key, if any, is the one recovery yields for the
    signature the message carries now. *)
Definition key_memo_valid (s : signedBase P) : Prop :=
  forall k, _publicKey s = Some k ->
    crypto.RecoverPublicKey (Signature s) (digest_of s) = Some k.

(** What a method leaves alone, and what it may add to the trace: no
    digest, or one digest that is memoized from then on. *)
Definition settled_after (s s' : signedBase P) (t : list Event) : Prop :=
  digest_of s' = digest_of s /\
  _byteser s' = _byteser s /\
  Signature s' = Signature s /\
  (_hash s <> None -> _hash s' <> None) /\
  (digests t = 0%nat \/ (digests t = 1%nat /\ _hash s = None /\ _hash s' <> None)).

(** The same for what concerns the hash alone: it also holds across an
    assignment to the [Signature] field. *)
Definition hash_settled (s s' : signedBase P) (t : list Event) : Prop :=
  digest_of s' = digest_of s /\
  (_hash s <> None -> _hash s' <> None) /\
  (digests t = 0%nat \/ (digests t = 1%nat /\ _hash s = None /\ _hash s' <> None)).

End SignedBase.

(** *** Votes and the collaborators of the vote list *)

(** [type voteType]: prevote or precommit. *)
Inductive voteType : Type := voteTypePrevote | voteTypePrecommit.

(** [type PartSetID]: the identifier of a block's part set, opaque to the
    vote list. *)
Definition PartSetID : Type := common.bytes.

(** Modelled from the spec: the declaration of [voteMessage] is not among
    the sources.  A vote carries height, round, vote type, block
    identifier and block part-set identifier and embeds a signed base
    whose signable payload is derived from these fields; the fields that
    [Verify] and [newVoteList] read and write give their names. *)
Module vote.
Record t : Type := mk {
  Height : Z;                         (* int64 *)
  Round : Z;                          (* int32 *)
  Type_ : voteType;
  BlockID : common.bytes;
  BlockPartSetID : option PartSetID   (* *PartSetID *)
}.
(** The zero value of the struct. *)
Definition zero : t := mk 0 0 voteTypePrevote [] None.
End vote.

(** The message is its own [_byteser]: the vote fields are the payload the
    embedded signed base points at, so an assignment to a vote field is
    seen by a later [hash]. *)
Abbreviation voteMessage := (signedBase vote.t).

(** Modelled from the spec: [newVoteMessage] is not among the sources; it
    returns a zero message whose signed base is initialized with the
    message itself and has nothing memoized. *)
Definition newVoteMessage : voteMessage :=
  mk_signedBase vote.zero [] None None.

(** [module.ValidatorList], the part [Verify] uses.  The address handed to
    [IndexOf] may be nil ([None]). *)
Module ValidatorList.
Record t : Type := mk {
  IndexOf : option common.Address -> Z;
  Len : Z
}.
End ValidatorList.

(** [module.Block], the part [Verify] uses. *)
Module Block.
Record t : Type := mk {
  Height : Z;              (* int64 *)
  ID : common.bytes;
  NextValidators : ValidatorList.t
}.
End Block.

(** *** votelist.go *)

Module voteList.

(** [type voteList struct] *)
Record t : Type := mk {
  Round : Z;                               (* int32 *)
  BlockPartSetID : option PartSetID;       (* *PartSetID *)
  Signatures : list common.Signature
}.

Definition zero : t := mk 0 None [].

(** The codec behind [vlCodec]: [None] stands for a non-nil error.
    [UnmarshalFromBytes bs vl] decodes into [vl] and returns the bytes
    left over. *)
Class Codec : Type := {
  MarshalToBytes : t -> option common.bytes;
  UnmarshalFromBytes : common.bytes -> t -> option (common.bytes * t)
}.

Section Verify.
Context `{CS : crypto.Suite} `{BS : byteser vote.t}.

(** The message [Verify] builds once, before the loop:
    [msg := newVoteMessage()] and the assignments of [block.Height()],
    [vl.Round], [voteTypePrecommit], [block.ID()] and [vl.BlockPartSetID]
    to its five vote fields. *)
Definition template (vl : t) (block : Block.t) : voteMessage :=
  set_byteser
    (vote.mk (Block.Height block) (Round vl) voteTypePrecommit
             (Block.ID block) (BlockPartSetID vl))
    newVoteMessage.

(** [for i, sig := range vl.Signatures { ... }], run on the one
    message [msg]; [Some e] is the early [return]. *)
Fixpoint Verify_range (validators : ValidatorList.t) (i : Z)
    (sigs : list common.Signature) : Op voteMessage (option error) :=
  match sigs with
  | [] => op_ret None
  | sig :: sigs' =>
      let* msg := op_get in
      op_put (set_Signature sig msg) ;;;
      let* addr := address in
      op_emit (EvIndexOf addr) ;;;
      let index := ValidatorList.IndexOf validators addr in
      if index <? 0 then
        op_emit EvPrintln ;;;
        let* addr' := address in
        op_ret (Some (BadVoter addr' i))
      else Verify_range validators (i + 1) sigs'
  end.

(** The part of [Verify] after the height-1 case. *)
Definition Verify_votes (vl : t) (block : Block.t) : Op voteMessage (option error) :=
  op_emit EvNextValidators ;;;
  let validators := Block.NextValidators block in
  let* bad := Verify_range validators 0 (Signatures vl) in
  match bad with
  | Some e => op_ret (Some e)
  | None =>
      op_emit EvLen ;;;
      let twoThirds := int_div (int_mul (ValidatorList.Len validators) 2) 3 in
      if len (Signatures vl) >? twoThirds then op_ret None
      else
        op_emit EvLen ;;;
        op_ret (Some (InsufficientVotes (len (Signatures vl))
                                        (ValidatorList.Len validators)))
  end.

(** [func (vl *voteList) Verify(block module.Block) error]: the error
    ([None] is nil) and the calls made. *)
Definition Verify (vl : t) (block : Block.t) : option error * list Event :=
  if Block.Height block =? 1 then
    if len (Signatures vl) =? 0 then (None, [])
    else (Some UnexpectedVoters, [])
  else
    let r := Verify_votes vl block (template vl block) in
    (op_value r, op_trace r).

(** The hash every signature of the list is checked against: that of the
    message [Verify] builds. *)
Definition vote_hash (vl : t) (block : Block.t) : common.bytes :=
  op_value (hash (template vl block)).

(** The address of the validator that produced [sig] for this list and
    block, nil when no key can be recovered. *)
Definition signer (vl : t) (block : Block.t) (sig : common.Signature)
    : option common.Address :=
  crypto.NewAccountAddressFromPublicKey
    <$> crypto.RecoverPublicKey sig (vote_hash vl block).

(** [sig] resolves to an address present in [block.NextValidators()]. *)
Definition resolves (vl : t) (block : Block.t) (sig : common.Signature) : bool :=
  match signer vl block sig with
  | Some a => 0 <=? ValidatorList.IndexOf (Block.NextValidators block) (Some a)
  | None => false
  end.

(** What the loop computes, with the memo of the message made explicit:
    [memo] is the key the message holds when the iteration starts; a
    signature is looked at only while there is none. *)
Fixpoint range_result (h : common.bytes) (validators : ValidatorList.t)
    (memo : option crypto.PublicKey) (i : Z) (sigs : list common.Signature)
    : option error :=
  match sigs with
  | [] => None
  | sig :: sigs' =>
      let key := match memo with
                 | Some k => Some k
                 | None => crypto.RecoverPublicKey sig h
                 end in
      let addr := crypto.NewAccountAddressFromPublicKey <$> key in
      if ValidatorList.IndexOf validators addr <? 0 then Some (BadVoter addr i)
      else range_result h validators key (i + 1) sigs'
  end.

(** The number of distinct validators behind the signatures of a list. *)
Definition distinct_signers (vl : t) (block : Block.t) : Z :=
  len (remove_dups (signer vl block <$> Signatures vl)).

(** The quorum test at the end of [Verify]. *)
Definition quorum_result (vl : t) (validators : ValidatorList.t) : option error :=
  if len (Signatures vl) >? int_div (int_mul (ValidatorList.Len validators) 2) 3
  then None
  else Some (InsufficientVotes (len (Signatures vl)) (ValidatorList.Len validators)).

End Verify.

Section Bytes.
Context `{vlCodec : Codec}.

(** [func (vl *voteList) Bytes() []byte]; the nil slice is [[]]. *)
Definition Bytes (vl : t) : common.bytes :=
  match MarshalToBytes vl with
  | None => []
  | Some bs => bs
  end.

(** [func (vl *voteList) Hash() []byte] *)
Definition Hash `{CS : crypto.Suite} (vl : t) : common.bytes :=
  crypto.SHA3Sum256 (Bytes vl).

(** [func NewVoteListFromBytes(bs []byte) module.VoteList]; a nil
    result is [None]. *)
Definition NewVoteListFromBytes (bs : common.bytes) : option t :=
  match UnmarshalFromBytes bs zero with
  | None => None
  | Some (_, vl) => Some vl
  end.

End Bytes.

(** What [newVoteList] can panic with. *)
Inductive panic : Type :=
| BadBlockID (want got : common.bytes)   (* logger.Panicf("newVoteList: bad block id ...") *)
| IndexOutOfRange (i : nat).

Definition set_Signatures (sigs : list common.Signature) (vl : t) : t :=
  mk (Round vl) (BlockPartSetID vl) sigs.

(** [for i := 0; i < l; i++ { ... }] with [n] iterations left
    ([n = l - i]). *)
Fixpoint newVoteList_for (msgs : list voteMessage) (blockID : common.bytes)
    (n i : nat) (vl : t) : Res panic t :=
  match n with
  | O => Ret vl
  | S n' =>
      match msgs !! i with
      | None => Panic (IndexOutOfRange i)
      | Some m =>
          let vl' := set_Signatures (<[i := Signature m]> (Signatures vl)) vl in
          if negb (common.bytes_Equal blockID (vote.BlockID (_byteser m))) then
            Panic (BadBlockID blockID (vote.BlockID (_byteser m)))
          else newVoteList_for msgs blockID n' (S i) vl'
      end
  end.

(** [func newVoteList(msgs []*voteMessage) *voteList] *)
Definition newVoteList (msgs : list voteMessage) : Res panic t :=
  let vl := zero in
  let l := length msgs in
  if (0 <? l)%nat then
    match msgs !! 0%nat with
    | None => Panic (IndexOutOfRange 0)
    | Some m0 =>
        let vl := mk (vote.Round (_byteser m0)) (vote.BlockPartSetID (_byteser m0))
                     (replicate l []) in
        let blockID := vote.BlockID (_byteser m0) in
        newVoteList_for msgs blockID l 0 vl
    end
  else Ret vl.

(** [m] votes for the block [blockID]. *)
Definition same_block (blockID : common.bytes) (m : voteMessage) : Prop :=
  vote.BlockID (_byteser m) = blockID.

End voteList.

End consensus.

(** ** package codec *)

Module codec.
Import consensus.

(** Modelled from the spec: the codec ([codec.MP]) is not among the
    sources.  The wire format of a vote list is the round as a signed
    32-bit integer, the block part-set identifier, and the ordered list of
    signatures, in a length-prefixed, canonical and deterministic binary
    encoding.  Here: integers are four bytes, big-endian; a byte string is
    its length followed by its bytes; an optional value is a tag byte
    followed by the value when there is one; a list is its length
    followed by its elements.  Encoding fails on what the format cannot
    hold, decoding fails on input that is not an encoding. *)
Definition byte_of_Z (z : Z) : byte :=
  default x00 (Byte.of_N (Z.to_N (z mod 256))).

Definition Z_of_byte (b : byte) : Z := Z.of_N (Byte.to_N b).

Definition put_uint32 (n : Z) : common.bytes :=
  [byte_of_Z (n / 2 ^ 24); byte_of_Z (n / 2 ^ 16); byte_of_Z (n / 2 ^ 8); byte_of_Z n].

Definition get_uint32 (bs : common.bytes) : option (Z * common.bytes) :=
  match bs with
  | b3 :: b2 :: b1 :: b0 :: rest =>
      Some (Z_of_byte b3 * 2 ^ 24 + Z_of_byte b2 * 2 ^ 16
            + Z_of_byte b1 * 2 ^ 8 + Z_of_byte b0, rest)
  | _ => None
  end.

Definition encode_uint32 (n : Z) : option common.bytes :=
  if (0 <=? n) && (n <? 2 ^ 32) then Some (put_uint32 n) else None.

Definition encode_int32 (z : Z) : option common.bytes :=
  if (- 2 ^ 31 <=? z) && (z <? 2 ^ 31) then Some (put_uint32 (z mod 2 ^ 32)) else None.

Definition decode_int32 (bs : common.bytes) : option (Z * common.bytes) :=
  match get_uint32 bs with
  | Some (n, rest) => Some (if n <? 2 ^ 31 then n else n - 2 ^ 32, rest)
  | None => None
  end.

Definition encode_bytes (bs : common.bytes) : option common.bytes :=
  match encode_uint32 (len bs) with
  | Some pre => Some (pre ++ bs)
  | None => None
  end.

Definition decode_bytes (bs : common.bytes) : option (common.bytes * common.bytes) :=
  match get_uint32 bs with
  | Some (n, rest) =>
      if len rest <? n then None
      else Some (take (Z.to_nat n) rest, drop (Z.to_nat n) rest)
  | None => None
  end.

Definition encode_optional (o : option common.bytes) : option common.bytes :=
  match o with
  | None => Some [x00]
  | Some bs =>
      match encode_bytes bs with
      | Some e => Some (x01 :: e)
      | None => None
      end
  end.

Definition decode_optional (bs : common.bytes)
    : option (option common.bytes * common.bytes) :=
  match bs with
  | x00 :: rest => Some (None, rest)
  | x01 :: rest =>
      match decode_bytes rest with
      | Some (v, rest') => Some (Some v, rest')
      | None => None
      end
  | _ => None
  end.

Fixpoint encode_elements (l : list common.bytes) : option common.bytes :=
  match l with
  | [] => Some []
  | x :: l' =>
      match encode_bytes x, encode_elements l' with
      | Some e, Some es => Some (e ++ es)
      | _, _ => None
      end
  end.

Fixpoint decode_elements (n : nat) (bs : common.bytes)
    : option (list common.bytes * common.bytes) :=
  match n with
  | O => Some ([], bs)
  | S n' =>
      match decode_bytes bs with
      | Some (x, rest) =>
          match decode_elements n' rest with
          | Some (l, rest') => Some (x :: l, rest')
          | None => None
          end
      | None => None
      end
  end.

Definition encode_list (l : list common.bytes) : option common.bytes :=
  match encode_uint32 (len l), encode_elements l with
  | Some pre, Some es => Some (pre ++ es)
  | _, _ => None
  end.

Definition decode_list (bs : common.bytes) : option (list common.bytes * common.bytes) :=
  match get_uint32 bs with
  | Some (n, rest) => decode_elements (Z.to_nat n) rest
  | None => None
  end.

(** [codec.MP], at the type the vote list uses it at. *)
#[global] Instance MP : voteList.Codec := {|
  voteList.MarshalToBytes vl :=
    match encode_int32 (voteList.Round vl),
          encode_optional (voteList.BlockPartSetID vl),
          encode_list (voteList.Signatures vl) with
    | Some r, Some p, Some s => Some (r ++ p ++ s)
    | _, _, _ => None
    end;
  voteList.UnmarshalFromBytes bs _ :=
    match decode_int32 bs with
    | Some (r, bs1) =>
        match decode_optional bs1 with
        | Some (p, bs2) =>
            match decode_list bs2 with
            | Some (s, bs3) => Some (bs3, voteList.mk r p s)
            | None => None
            end
        | None => None
        end
    | None => None
    end
|}.

(** [var vlCodec = codec.MP] *)
Definition vlCodec : voteList.Codec := MP.

End codec.

(** ** package icstate: account.go *)

Module icstate.

(** [module.Address] is an interface value: nil or an address. *)
Definition Address : Type := option common.Address.

(** The container types of an account ([Unstakes], [Delegations], [Bonds],
    [Unbonds]) with their [Clone] and [Equal], and [icutils.EqualAddress].
    They are declared in files that are not among the sources, so the
    account is stated over any of them. *)
Class Containers : Type := {
  Unstakes : Type;
  Delegations : Type;
  Bonds : Type;
  Unbonds : Type;
  Unstakes_Clone : Unstakes -> Unstakes;
  Unstakes_Equal : Unstakes -> Unstakes -> bool;
  Delegations_Clone : Delegations -> Delegations;
  Delegations_Equal : Delegations -> Delegations -> bool;
  Bonds_Clone : Bonds -> Bonds;
  Bonds_Equal : Bonds -> Bonds -> bool;
  Unbonds_Clone : Unbonds -> Unbonds;
  Unbonds_Equal : Unbonds -> Unbonds -> bool;
  EqualAddress : Address -> Address -> bool
}.

(** What a copy owes its original: a clone is [Equal] to what it was
    cloned from, and an address equals itself. *)
Class ContainersLaws `{Containers} : Prop := {
  Unstakes_Equal_Clone : forall x, Unstakes_Equal x (Unstakes_Clone x) = true;
  Delegations_Equal_Clone : forall x, Delegations_Equal x (Delegations_Clone x) = true;
  Bonds_Equal_Clone : forall x, Bonds_Equal x (Bonds_Clone x) = true;
  Unbonds_Equal_Clone : forall x, Unbonds_Equal x (Unbonds_Clone x) = true;
  EqualAddress_same : forall a, EqualAddress a a = true
}.

(** [Cmp] and [Sign] of [big.Int], on the values. *)
Definition Cmp (x y : Z) : Z :=
  match x ?= y with
  | Lt => -1
  | Eq => 0
  | Gt => 1
  end.

Definition Sign (x : Z) : Z := Z.sgn x.

Inductive error : Type :=
| NegativeStake.   (* "negative stake is not allowed" *)

Inductive panic : Type :=
| NilDereference
| NotWritable.     (* checkWritable on a frozen object *)

Section Account.
Context `{CT : Containers}.

(** [type Account struct].  [readonly] is the flag of the embedded
    [StateAndSnapshot] ([IsReadonly], [freeze], [checkWritable]); the
    [*big.Int] fields hold the values of the integers they point to,
    each account owning its own ([Clone] and [Set] copy them). *)
Record Account : Type := mk_Account {
  readonly : bool;
  address : Address;
  stake : Z;
  unstakes : Unstakes;
  delegating : Z;
  delegations : Delegations;
  bonding : Z;
  unbonding : Z;
  bonds : Bonds;
  unbonds : Unbonds
}.

Definition set_stake (v : Z) (a : Account) : Account :=
  mk_Account (readonly a) (address a) v (unstakes a) (delegating a)
             (delegations a) (bonding a) (unbonding a) (bonds a) (unbonds a).

(** A [*Account] and the accounts allocated so far. *)
#[local] Abbreviation ptr := nat.
#[local] Abbreviation store := (gmap nat Account).

(** [icobject.Impl]: an account, or an object of another type. *)
Inductive Impl : Type :=
| Impl_Account (p : ptr)
| Impl_other.

(** [func (a *Account) equal(other *Account) bool] *)
Definition equal (a other : ptr) (st : store) : Res panic bool :=
  if bool_decide (a = other) then Ret true
  else
    match st !! a, st !! other with
    | Some x, Some y =>
        Ret (EqualAddress (address x) (address y)
             && (Cmp (stake x) (stake y) =? 0)
             && Unstakes_Equal (unstakes x) (unstakes y)
             && (Cmp (delegating x) (delegating y) =? 0)
             && Delegations_Equal (delegations x) (delegations y)
             && (Cmp (bonding x) (bonding y) =? 0)
             && (Cmp (unbonding x) (unbonding y) =? 0)
             && Bonds_Equal (bonds x) (bonds y)
             && Unbonds_Equal (unbonds x) (unbonds y))
    | _, _ => Panic NilDereference
    end.

(** [func (a *Account) Equal(object icobject.Impl) bool] *)
Definition Equal (a : ptr) (object : Impl) (st : store) : Res panic bool :=
  match object with
  | Impl_other => Ret false
  | Impl_Account other =>
      if bool_decide (a = other) then Ret true
      else equal a other st
  end.

(** [func (a *Account) Clone() *Account]: the new account is allocated
    at an address not in use. *)
Definition Clone (a : ptr) (st : store) : Res panic (ptr * store) :=
  match st !! a with
  | None => Panic NilDereference
  | Some x =>
      let c := {|
        readonly := false;
        address := address x;
        stake := stake x;
        unstakes := Unstakes_Clone (unstakes x);
        delegating := delegating x;
        delegations := Delegations_Clone (delegations x);
        bonding := bonding x;
        unbonding := unbonding x;
        bonds := Bonds_Clone (bonds x);
        unbonds := Unbonds_Clone (unbonds x)
      |} in
      let p := fresh (dom st) in
      Ret (p, <[p := c]> st)
  end.

(** [checkWritable] of the embedded [StateAndSnapshot]. *)
Definition checkWritable (x : Account) : Res panic unit :=
  if readonly x then Panic NotWritable else Ret tt.

(** [func (a *Account) SetStake(v *big.Int) error] *)
Definition SetStake (a : ptr) (v : Z) (st : store)
    : Res panic (option error * store) :=
  match st !! a with
  | None => Panic NilDereference
  | Some x =>
      match checkWritable x with
      | Panic p => Panic p
      | Ret _ =>
          if Sign v =? -1 then Ret (Some NegativeStake, st)
          else Ret (None, <[a := set_stake v x]> st)
      end
  end.

(** [IsReadonly] and [freeze] of the embedded [StateAndSnapshot]. *)
Definition IsReadonly (x : Account) : bool := readonly x.

Definition freeze (x : Account) : Account :=
  mk_Account true (address x) (stake x) (unstakes x) (delegating x)
             (delegations x) (bonding x) (unbonding x) (bonds x) (unbonds x).

(** [func (a *Account) IsEmpty() bool] *)
Definition IsEmpty (x : Account) : bool := bool_decide (address x = None).

(** [func (a *Account) GetVoting() *big.Int]: [Bond()], [Delegating()]
    and [Unbond()] return the fields [bonding], [delegating] and
    [unbonding]. *)
Definition GetVoting (x : Account) : Z :=
  bonding x + delegating x + unbonding x.

(** [func (a *Account) GetVotingPower() *big.Int] *)
Definition GetVotingPower (x : Account) : Z := stake x - GetVoting x.

(** [func (a *Account) Set(other *Account)] ([Set] is a keyword). *)
Definition Set_ (a other : ptr) (st : store) : Res panic store :=
  match st !! a with
  | None => Panic NilDereference
  | Some x =>
      match checkWritable x with
      | Panic p => Panic p
      | Ret _ =>
          match st !! other with
          | None => Panic NilDereference
          | Some y =>
              Ret (<[a := {|
                     readonly := readonly x;
                     address := address y;
                     stake := stake y;
                     unstakes := Unstakes_Clone (unstakes y);
                     delegating := delegating y;
                     delegations := Delegations_Clone (delegations y);
                     bonding := bonding y;
                     unbonding := unbonding y;
                     bonds := Bonds_Clone (bonds y);
                     unbonds := Unbonds_Clone (unbonds y)
                   |}]> st)
          end
      end
  end.

(** [func (a *Account) SlashStake(amount *big.Int) error] *)
Definition SlashStake (a : ptr) (amount : Z) (st : store)
    : Res panic (option error * store) :=
  match st !! a with
  | None => Panic NilDereference
  | Some x =>
      let stake := stake x in
      let stake := stake - amount in
      SetStake a stake st
  end.

(** [func (a *Account) GetSnapshot() *Account] *)
Definition GetSnapshot (a : ptr) (st : store) : Res panic (ptr * store) :=
  match st !! a with
  | None => Panic NilDereference
  | Some x =>
      if IsReadonly x then Ret (a, st)
      else
        match Clone a st with
        | Panic p => Panic p
        | Ret (ret, st1) =>
            match st1 !! ret with
            | None => Panic NilDereference
            | Some y => Ret (ret, <[ret := freeze y]> st1)
            end
        end
  end.

End Account.

(** Outside the section: a [*Account] and the store, for any containers. *)
Abbreviation ptr := nat.
Abbreviation store := (gmap nat Account).

(** *** The unstakes and unbonds of an account as slices *)

(** [type Unbond struct]: the composite literals of [GetUnbondingInfo]
    give its three fields, in this order. *)
Module Unbond.
Record t : Type := mk {
  Address : common.Address;
  Value : Z;       (* *big.Int *)
  Expire : Z       (* int64 *)
}.
End Unbond.

(** What the methods below use of the rest of the package: [Unstakes] is
    a slice of elements with an [Amount] and an [ExpireHeight], [Unbonds]
    is a slice of [Unbond]; the other two containers stay abstract, with
    their nil value.  [Clone] and [Equal] are as in [Containers]. *)
Class Slices : Type := {
  Unstake : Type;
  Amount : Unstake -> Z;
  ExpireHeight : Unstake -> Z;
  Delegations' : Type;
  Bonds' : Type;
  Delegations_nil : Delegations';
  Bonds_nil : Bonds';
  Unstakes_Clone' : list Unstake -> list Unstake;
  Unstakes_Equal' : list Unstake -> list Unstake -> bool;
  Delegations_Clone' : Delegations' -> Delegations';
  Delegations_Equal' : Delegations' -> Delegations' -> bool;
  Bonds_Clone' : Bonds' -> Bonds';
  Bonds_Equal' : Bonds' -> Bonds' -> bool;
  Unbonds_Clone' : list Unbond.t -> list Unbond.t;
  Unbonds_Equal' : list Unbond.t -> list Unbond.t -> bool;
  EqualAddress' : Address -> Address -> bool
}.

#[global] Instance Slices_Containers `{SL : Slices} : Containers := {|
  Unstakes := list Unstake;
  Delegations := Delegations';
  Bonds := Bonds';
  Unbonds := list Unbond.t;
  Unstakes_Clone := Unstakes_Clone';
  Unstakes_Equal := Unstakes_Equal';
  Delegations_Clone := Delegations_Clone';
  Delegations_Equal := Delegations_Equal';
  Bonds_Clone := Bonds_Clone';
  Bonds_Equal := Bonds_Equal';
  Unbonds_Clone := Unbonds_Clone';
  Unbonds_Equal := Unbonds_Equal';
  EqualAddress := EqualAddress'
|}.

(** The errors of [RemoveUnbonding] and [RemoveUnstaking], with the
    address and the height their message prints. *)
Inductive timer_error : Type :=
| NoUnbondingTimer (addr : common.Address) (height : Z)      (* "%s does not have unbonding timer at %d" *)
| NoUnstakingTimer (addr : common.Address) (height : Z)      (* "%s does not have unstaking timer at %d" *)
| TooManyUnstakingTimers (addr : common.Address) (height : Z). (* "%s has too many unstaking timer at %d" *)

Section AccountSlices.
Context `{SL : Slices}.

Definition set_unbonds (us : list Unbond.t) (v : Z) (a : Account) : Account :=
  mk_Account (readonly a) (address a) (stake a) (unstakes a) (delegating a)
             (delegations a) (bonding a) v (bonds a) us.

Definition set_unstakes (us : list Unstake) (a : Account) : Account :=
  mk_Account (readonly a) (address a) (stake a) us (delegating a)
             (delegations a) (bonding a) (unbonding a) (bonds a) (unbonds a).

(** [func newAccount(addr module.Address) *Account], the value it
    allocates. *)
Definition newAccount (addr : Address) : Account :=
  mk_Account false addr 0 [] 0 Delegations_nil 0 0 Bonds_nil [].

(** [func (a *Account) Clear()] *)
Definition Clear (a : ptr) (st : store) : Res panic store :=
  match st !! a with
  | None => Panic NilDereference
  | Some x =>
      match checkWritable x with
      | Panic p => Panic p
      | Ret _ =>
          Ret (<[a := mk_Account (readonly x) None 0 [] 0 Delegations_nil 0 0 Bonds_nil []]> st)
      end
  end.

(** The loop of [RemoveUnbonding]: [tmp] and [removed] after the unbonds
    [us]. *)
Fixpoint RemoveUnbonding_range (height : Z) (us tmp : list Unbond.t) (removed : Z)
    : list Unbond.t * Z :=
  match us with
  | [] => (tmp, removed)
  | u :: us' =>
      if negb (Unbond.Expire u =? height)
      then RemoveUnbonding_range height us' (tmp ++ [u]) removed
      else RemoveUnbonding_range height us' tmp (removed + Unbond.Value u)
  end.

(** [func (a *Account) RemoveUnbonding(height int64) error].  The error
    message calls [String] on the address, which panics on a nil one. *)
Definition RemoveUnbonding (a : ptr) (height : Z) (st : store)
    : Res panic (option timer_error * store) :=
  match st !! a with
  | None => Panic NilDereference
  | Some x =>
      match checkWritable x with
      | Panic p => Panic p
      | Ret _ =>
          let '(tmp, removed) := RemoveUnbonding_range height (unbonds x) [] 0 in
          if len tmp =? len (unbonds x) then
            match address x with
            | None => Panic NilDereference
            | Some addr => Ret (Some (NoUnbondingTimer addr height), st)
            end
          else Ret (None, <[a := set_unbonds tmp (unbonding x - removed) x]> st)
      end
  end.

(** The loop of [RemoveUnstaking]: [tmp] and [ra] after the unstakes
    [us]. *)
Fixpoint RemoveUnstaking_range (height : Z) (us tmp : list Unstake) (ra : Z)
    : list Unstake * Z :=
  match us with
  | [] => (tmp, ra)
  | u :: us' =>
      if ExpireHeight u =? height
      then RemoveUnstaking_range height us' tmp (Amount u)
      else RemoveUnstaking_range height us' (tmp ++ [u]) ra
  end.

(** [func (a *Account) RemoveUnstaking(height int64) (ra *big.Int, err error)] *)
Definition RemoveUnstaking (a : ptr) (height : Z) (st : store)
    : Res panic (Z * option timer_error * store) :=
  match st !! a with
  | None => Panic NilDereference
  | Some x =>
      match checkWritable x with
      | Panic p => Panic p
      | Ret _ =>
          let '(tmp, ra) := RemoveUnstaking_range height (unstakes x) [] 0 in
          let tl := len tmp in
          let ul := len (unstakes x) in
          let st' := <[a := set_unstakes tmp x]> st in
          if tl =? ul then
            match address x with
            | None => Panic NilDereference
            | Some addr => Ret (ra, Some (NoUnstakingTimer addr height), st')
            end
          else if negb (tl =? ul - 1) then
            match address x with
            | None => Panic NilDereference
            | Some addr => Ret (ra, Some (TooManyUnstakingTimers addr height), st')
            end
          else Ret (ra, None, st')
      end
  end.

(** The sum of the values of a slice of unbonds. *)
Definition unbond_total (us : list Unbond.t) : Z :=
  foldr (fun u acc => Unbond.Value u + acc) 0 us.

(** The unbonds that expire at [height], and the others. *)
Definition expiring (height : Z) (us : list Unbond.t) : list Unbond.t :=
  List.filter (fun u => Unbond.Expire u =? height) us.

Definition remaining (height : Z) (us : list Unbond.t) : list Unbond.t :=
  List.filter (fun u => negb (Unbond.Expire u =? height)) us.

(** The unstakes that expire at [height], and the others. *)
Definition unstakes_expiring (height : Z) (us : list Unstake) : list Unstake :=
  List.filter (fun u => ExpireHeight u =? height) us.

Definition unstakes_remaining (height : Z) (us : list Unstake) : list Unstake :=
  List.filter (fun u => negb (ExpireHeight u =? height)) us.

End AccountSlices.

End icstate.

(** ** package icon: the chain score *)

Module icon.

(** [type chainMethod struct]: a method descriptor with the revisions it
    is offered at.  [GetAPI] copies the descriptor without looking into
    it, so its type is left open. *)
Record chainMethod (M : Type) : Type := mk_chainMethod {
  Method : M;
  minVer : Z;   (* int *)
  maxVer : Z    (* int *)
}.
Arguments mk_chainMethod {M}.
Arguments Method {M}.
Arguments minVer {M}.
Arguments maxVer {M}.

(** [var chainMethods], each method by its name. *)
Definition chainMethods : list (chainMethod string) := [
  mk_chainMethod "setStake" 0 0;
  mk_chainMethod "getStake" 0 0;
  mk_chainMethod "setDelegation" 0 0;
  mk_chainMethod "getDelegation" 0 0;
  mk_chainMethod "registerPRep" 0 0;
  mk_chainMethod "getPRep" 0 0
].

Section GetAPI.
Context {M : Type}.

(** The test of the loop of [GetAPI]. *)
Definition offered (revision : Z) (m : chainMethod M) : bool :=
  (minVer m <=? revision) && ((maxVer m =? 0) || (revision <=? maxVer m)).

(** [for _, m := range chainMethods { ... }]: the slice [methods] of
    pointers (nil is [None]) and the index [j] after the methods [ms]. *)
Fixpoint GetAPI_range (revision : Z) (ms : list (chainMethod M))
    (methods : list (option M)) (j : nat) : list (option M) * nat :=
  match ms with
  | [] => (methods, j)
  | m :: ms' =>
      if offered revision m
      then GetAPI_range revision ms' (<[j := Some (Method m)]> methods) (S j)
      else GetAPI_range revision ms' methods j
  end.

(** [func (s *chainScore) GetAPI() *scoreapi.Info], for the revision read
    from the state: the slice [methods[:j]] that is handed to
    [scoreapi.NewInfo]. *)
Definition GetAPI (revision : Z) (table : list (chainMethod M)) : list (option M) :=
  let mLen := length table in
  let methods := replicate mLen None in
  let '(methods, j) := GetAPI_range revision table methods 0 in
  take j methods.

End GetAPI.

End icon.

(** ** Fixtures

    Small stand-ins for the collaborators, used to run the functions on
    concrete inputs. *)

Module fixture.
Import consensus.

(** A signature is the signer's key; one starting with a zero byte, or an
    empty one, recovers no key.  The address prefixes the key with a type
    byte. *)
#[global] Instance suite : crypto.Suite := {|
  crypto.SHA3Sum256 bs := rev bs;
  crypto.RecoverPublicKey sig _ :=
    match sig with
    | [] => None
    | b :: _ => if bool_decide (b = x00) then None else Some sig
    end;
  crypto.NewAccountAddressFromPublicKey k := x00 :: k
|}.

#[global] Instance vote_bytes : byteser vote.t := fun v =>
  codec.put_uint32 (vote.Height v) ++ codec.put_uint32 (vote.Round v) ++ vote.BlockID v.

(** Modelled from the spec: a validator set is an ordered set with a
    lookup from address to index and a length; an address that is not in
    the set (the nil address included) has index -1. *)
Fixpoint index_of (a : common.Address) (l : list common.Address) (i : Z) : Z :=
  match l with
  | [] => -1
  | x :: l' => if bool_decide (x = a) then i else index_of a l' (i + 1)
  end.

Definition validators (l : list common.Address) : ValidatorList.t :=
  ValidatorList.mk
    (fun a => match a with
              | None => -1
              | Some x => index_of x l 0
              end)
    (len l).

Definition key (b : byte) : crypto.PublicKey := [b].
Definition sig_of (b : byte) : common.Signature := [b].
Definition addr_of (b : byte) : common.Address := [x00; b].
Definition bad_sig : common.Signature := [x00; xff].

Definition four : ValidatorList.t :=
  validators [addr_of x01; addr_of x02; addr_of x03; addr_of x04].

Definition two : ValidatorList.t :=
  validators [addr_of x01; addr_of x02].

Definition block (h : Z) (vs : ValidatorList.t) : Block.t :=
  Block.mk h [xaa] vs.

(** Containers of an account as lists of (address, amount) entries,
    cloned entry by entry and compared entry by entry. *)
Definition entries : Type := list (common.Address * Z).

#[global] Instance containers : icstate.Containers := {|
  icstate.Unstakes := entries;
  icstate.Delegations := entries;
  icstate.Bonds := entries;
  icstate.Unbonds := entries;
  icstate.Unstakes_Clone l := map (fun e => (fst e, snd e)) l;
  icstate.Unstakes_Equal l1 l2 := bool_decide (l1 = l2);
  icstate.Delegations_Clone l := map (fun e => (fst e, snd e)) l;
  icstate.Delegations_Equal l1 l2 := bool_decide (l1 = l2);
  icstate.Bonds_Clone l := map (fun e => (fst e, snd e)) l;
  icstate.Bonds_Equal l1 l2 := bool_decide (l1 = l2);
  icstate.Unbonds_Clone l := map (fun e => (fst e, snd e)) l;
  icstate.Unbonds_Equal l1 l2 := bool_decide (l1 = l2);
  icstate.EqualAddress a b := bool_decide (a = b)
|}.

Definition account (ro : bool) (s : Z) : icstate.Account :=
  icstate.mk_Account ro (Some (addr_of x01)) s [(addr_of x02, 5)] 7
    [(addr_of x03, 7)] 0 0 [] [].

(** A codec whose encoder and decoder always return an error. *)
Definition failing_codec : voteList.Codec := {|
  voteList.MarshalToBytes _ := None;
  voteList.UnmarshalFromBytes _ _ := None
|}.

(** Unstakes as (amount, expire height) pairs and the other slices as
    above, for the methods that walk the unstakes and the unbonds. *)
Definition slices : icstate.Slices := {|
  icstate.Unstake := Z * Z;
  icstate.Amount := fst;
  icstate.ExpireHeight := snd;
  icstate.Delegations' := entries;
  icstate.Bonds' := entries;
  icstate.Delegations_nil := [];
  icstate.Bonds_nil := [];
  icstate.Unstakes_Clone' l := map (fun e => (fst e, snd e)) l;
  icstate.Unstakes_Equal' l1 l2 := bool_decide (l1 = l2);
  icstate.Delegations_Clone' l := map (fun e => (fst e, snd e)) l;
  icstate.Delegations_Equal' l1 l2 := bool_decide (l1 = l2);
  icstate.Bonds_Clone' l := map (fun e => (fst e, snd e)) l;
  icstate.Bonds_Equal' l1 l2 := bool_decide (l1 = l2);
  icstate.Unbonds_Clone' l :=
    map (fun u => icstate.Unbond.mk (icstate.Unbond.Address u) (icstate.Unbond.Value u)
                                    (icstate.Unbond.Expire u)) l;
  icstate.Unbonds_Equal' l1 l2 :=
    bool_decide (map (fun u => (icstate.Unbond.Address u, icstate.Unbond.Value u,
                                icstate.Unbond.Expire u)) l1
                 = map (fun u => (icstate.Unbond.Address u, icstate.Unbond.Value u,
                                  icstate.Unbond.Expire u)) l2);
  icstate.EqualAddress' a b := bool_decide (a = b)
|}.

(** An account with two unstakes expiring at 100, one at 200, and unbonds
    of 3 and 4 expiring at 100 and 200. *)
Definition timers (ro : bool) (addr : icstate.Address)
    : @icstate.Account (@icstate.Slices_Containers slices) :=
  @icstate.mk_Account (@icstate.Slices_Containers slices) ro addr 50
    ([(5, 100); (6, 200); (7, 100)] : list (Z * Z)) 0 ([] : entries) 0 7 ([] : entries)
    ([icstate.Unbond.mk (addr_of x02) 3 100; icstate.Unbond.mk (addr_of x03) 4 200]
       : list icstate.Unbond.t).

End fixture.

(** * Properties *)

(** ** The signed base *)

Section SignedBaseFacts.
Import consensus.
Context `{CS : crypto.Suite} {P : Type} `{BS : byteser P}.
Implicit Types s : signedBase P.

Lemma hash_unfold s :
  hash s =
  match _hash s with
  | None =>
      (crypto.SHA3Sum256 (bytes (_byteser s)),
       set_hash (Some (crypto.SHA3Sum256 (bytes (_byteser s)))) s,
       [EvSHA3Sum256 (bytes (_byteser s))])
  | Some h => (h, s, [])
  end.
Proof. unfold hash, op_bind, op_get. destruct (_hash s); reflexivity. Qed.

Lemma hash_value s : op_value (hash s) = digest_of s.
Proof. rewrite hash_unfold. unfold digest_of. destruct (_hash s); reflexivity. Qed.

Lemma hash_state s : op_state (hash s) = set_hash (Some (digest_of s)) s.
Proof.
  rewrite hash_unfold. unfold digest_of.
  destruct s as [p sg [h|] k]; reflexivity.
Qed.

Lemma hash_trace s :
  op_trace (hash s) =
  match _hash s with
  | None => [EvSHA3Sum256 (bytes (_byteser s))]
  | Some _ => []
  end.
Proof. rewrite hash_unfold. destruct (_hash s); reflexivity. Qed.

Lemma hash_memoized s : hash (op_state (hash s)) = (digest_of s, op_state (hash s), []).
Proof. rewrite hash_state. rewrite hash_unfold. reflexivity. Qed.

Lemma publicKey_unfold s :
  publicKey s =
  match _publicKey s with
  | Some k => (Some k, s, [])
  | None =>
      let t := op_trace (hash s) ++ [EvRecoverPublicKey (Signature s) (digest_of s)] in
      match crypto.RecoverPublicKey (Signature s) (digest_of s) with
      | None => (None, op_state (hash s), t)
      | Some k => (Some k, set_publicKey (Some k) (op_state (hash s)), t)
      end
  end.
Proof.
  pose proof (hash_value s) as Hv.
  unfold publicKey, op_bind, op_get.
  destruct (_publicKey s) as [k|]; [reflexivity|].
  destruct (hash s) as [[h s1] t1]. unfold op_value in Hv. cbn in Hv. subst h.
  unfold op_emit, op_put, op_ret, op_state, op_trace. cbn [fst snd].
  destruct (crypto.RecoverPublicKey (Signature s) (digest_of s));
    cbn [app]; rewrite ?app_nil_r; reflexivity.
Qed.

Lemma address_unfold s :
  address s =
  (crypto.NewAccountAddressFromPublicKey <$> op_value (publicKey s),
   op_state (publicKey s), op_trace (publicKey s)).
Proof.
  unfold address, op_bind. destruct (publicKey s) as [[[k|] s1] t1]; cbn;
    rewrite app_nil_r; reflexivity.
Qed.

Lemma verify_unfold s :
  verify s =
  (match op_value (publicKey s) with None => Some BadSignature | Some _ => None end,
   op_state (publicKey s), op_trace (publicKey s)).
Proof.
  unfold verify, op_bind. destruct (publicKey s) as [[[k|] s1] t1]; cbn;
    rewrite app_nil_r; reflexivity.
Qed.

Lemma address_value s :
  op_value (address s) =
  crypto.NewAccountAddressFromPublicKey <$> op_value (publicKey s).
Proof. rewrite address_unfold. reflexivity. Qed.

Lemma verify_value s :
  op_value (verify s) =
  match op_value (publicKey s) with None => Some BadSignature | Some _ => None end.
Proof. rewrite verify_unfold. reflexivity. Qed.

Lemma address_state_eq s : op_state (address s) = op_state (publicKey s).
Proof. rewrite address_unfold. reflexivity. Qed.

Lemma verify_state_eq s : op_state (verify s) = op_state (publicKey s).
Proof. rewrite verify_unfold. reflexivity. Qed.

Lemma publicKey_value s :
  op_value (publicKey s) =
  match _publicKey s with
  | Some k => Some k
  | None => crypto.RecoverPublicKey (Signature s) (digest_of s)
  end.
Proof.
  rewrite publicKey_unfold. destruct (_publicKey s); [reflexivity|].
  cbn zeta. destruct (crypto.RecoverPublicKey (Signature s) (digest_of s)); reflexivity.
Qed.

Lemma digests_app t1 t2 : digests (t1 ++ t2) = (digests t1 + digests t2)%nat.
Proof. unfold digests. rewrite List.filter_app, length_app. reflexivity. Qed.

Lemma settled_refl s : settled_after s s [].
Proof. unfold settled_after. cbn. repeat split; auto. Qed.

Lemma settled_trans s s1 s2 t1 t2 :
  settled_after s s1 t1 -> settled_after s1 s2 t2 -> settled_after s s2 (t1 ++ t2).
Proof.
  intros (Hd1 & Hb1 & Hs1 & Hm1 & Hc1) (Hd2 & Hb2 & Hs2 & Hm2 & Hc2).
  unfold settled_after. rewrite digests_app.
  split; [congruence|]. split; [congruence|]. split; [congruence|].
  split; [auto|].
  destruct Hc1 as [H1 | (H1 & Hn & Hn1)]; destruct Hc2 as [H2 | (H2 & Hn2 & Hn3)];
    rewrite H1, H2; cbn.
  - left; reflexivity.
  - right. split; [reflexivity|]. split; [|exact Hn3].
    destruct (_hash s) eqn:E; [|reflexivity]. exfalso. apply Hm1; congruence.
  - right. split; [reflexivity|]. split; [exact Hn|]. apply Hm2, Hn1.
  - contradiction.
Qed.

Lemma settled_hash s : settled_after s (op_state (hash s)) (op_trace (hash s)).
Proof.
  rewrite hash_state, hash_trace. unfold settled_after, digest_of.
  destruct s as [p sg [h|] k]; cbn.
  - repeat split; auto.
  - split; [reflexivity|]. split; [reflexivity|]. split; [reflexivity|].
    split; [congruence|]. right. split; [reflexivity|]. split; congruence.
Qed.

Lemma settled_publicKey s :
  settled_after s (op_state (publicKey s)) (op_trace (publicKey s)).
Proof.
  rewrite publicKey_unfold.
  destruct (_publicKey s) as [k|] eqn:Hk.
  - apply settled_refl.
  - cbn zeta.
    assert (Hstep : settled_after s (op_state (hash s))
              (op_trace (hash s) ++ [EvRecoverPublicKey (Signature s) (digest_of s)])).
    { apply settled_trans with (s1 := op_state (hash s));
        [apply settled_hash | apply settled_refl]. }
    destruct (crypto.RecoverPublicKey (Signature s) (digest_of s)); exact Hstep.
Qed.

Lemma settled_address s :
  settled_after s (op_state (address s)) (op_trace (address s)).
Proof. rewrite address_unfold. apply settled_publicKey. Qed.

Lemma settled_verify s :
  settled_after s (op_state (verify s)) (op_trace (verify s)).
Proof. rewrite verify_unfold. apply settled_publicKey. Qed.

Lemma calls_settled ms : forall s,
  Forall (fun h => h = digest_of s) (op_value (calls ms s)) /\
  settled_after s (op_state (calls ms s)) (op_trace (calls ms s)).
Proof.
  induction ms as [|m ms IH]; intros s.
  - split; [constructor | apply settled_refl].
  - destruct m; cbn [calls]; unfold op_bind.
    + pose proof (hash_value s) as Hv. pose proof (settled_hash s) as Hs.
      destruct (hash s) as [[h s1] t1].
      specialize (IH s1). destruct (calls ms s1) as [[hs s2] t2].
      unfold op_value, op_state, op_trace in *. cbn in *.
      destruct IH as [IHv IHs]. split.
      * constructor; [congruence|].
        destruct Hs as (Hd & _). rewrite Hd in IHv. exact IHv.
      * rewrite app_nil_r. eapply settled_trans; eauto.
    + pose proof (settled_publicKey s) as Hs.
      destruct (publicKey s) as [[k s1] t1].
      specialize (IH s1). destruct (calls ms s1) as [[hs s2] t2].
      unfold op_value, op_state, op_trace in *. cbn in *.
      destruct IH as [IHv IHs]. split.
      * destruct Hs as (Hd & _). rewrite Hd in IHv. exact IHv.
      * eapply settled_trans; eauto.
    + pose proof (settled_address s) as Hs.
      destruct (address s) as [[k s1] t1].
      specialize (IH s1). destruct (calls ms s1) as [[hs s2] t2].
      unfold op_value, op_state, op_trace in *. cbn in *.
      destruct IH as [IHv IHs]. split.
      * destruct Hs as (Hd & _). rewrite Hd in IHv. exact IHv.
      * eapply settled_trans; eauto.
    + pose proof (settled_verify s) as Hs.
      destruct (verify s) as [[k s1] t1].
      specialize (IH s1). destruct (calls ms s1) as [[hs s2] t2].
      unfold op_value, op_state, op_trace in *. cbn in *.
      destruct IH as [IHv IHs]. split.
      * destruct Hs as (Hd & _). rewrite Hd in IHv. exact IHv.
      * eapply settled_trans; eauto.
Qed.

(** C8.  [hash] is idempotent.  The first call on a message returns the
    SHA3-256 digest of the payload's bytes when nothing is memoized yet,
    and memoizes what it returns.  However the methods of the message are
    called afterwards ([ms], the payload being left as it is), every
    [hash] among them returns the same bytes and no digest is computed
    again; over any sequence of calls at most one digest is computed. *)
Theorem hash_idempotent s :
  (_hash s = None ->
     op_value (hash s) = crypto.SHA3Sum256 (bytes (_byteser s))) /\
  _hash (op_state (hash s)) = Some (op_value (hash s)) /\
  (digests (op_trace (hash s)) <= 1)%nat /\
  hash (op_state (hash s)) = (op_value (hash s), op_state (hash s), []) /\
  (forall ms,
     Forall (fun h => h = op_value (hash s)) (op_value (calls ms (op_state (hash s)))) /\
     digests (op_trace (calls ms (op_state (hash s)))) = 0%nat) /\
  (forall ms,
     Forall (fun h => h = op_value (hash s)) (op_value (calls ms s)) /\
     (digests (op_trace (calls ms s)) <= 1)%nat).
Proof.
  split; [|split; [|split; [|split; [|split]]]].
  - intros Hn. rewrite hash_value. unfold digest_of. rewrite Hn. reflexivity.
  - rewrite hash_state, hash_value. reflexivity.
  - rewrite hash_trace. destruct (_hash s); cbn; lia.
  - rewrite hash_memoized, hash_value. reflexivity.
  - intros ms.
    destruct (calls_settled ms (op_state (hash s))) as [Hv (Hd & _ & _ & Hm & Hc)].
    split.
    + rewrite hash_value.
      destruct (settled_hash s) as (Hd' & _). rewrite Hd' in Hv. exact Hv.
    + destruct Hc as [H0 | (_ & Hn & _)]; [exact H0|].
      rewrite hash_state in Hn. discriminate Hn.
  - intros ms.
    destruct (calls_settled ms s) as [Hv (_ & _ & _ & _ & Hc)].
    split.
    + rewrite hash_value. exact Hv.
    + destruct Hc as [H0 | (H1 & _)]; lia.
Qed.

(** Asking for the key keeps a valid memo valid. *)
Lemma key_memo_valid_publicKey s :
  key_memo_valid s -> key_memo_valid (op_state (publicKey s)).
Proof.
  intros Hvalid. pose proof (settled_publicKey s) as (Hd & _ & Hs & _).
  unfold key_memo_valid. rewrite Hd, Hs.
  rewrite publicKey_unfold.
  destruct (_publicKey s) as [k|] eqn:Hk; [intros k' Hk'; apply Hvalid; cbn in Hk'; congruence|].
  cbn zeta.
  destruct (crypto.RecoverPublicKey (Signature s) (digest_of s)) eqn:Hr;
    intros k' Hk'; unfold op_state at 1 in Hk'; cbn [fst snd] in Hk'.
  - cbn in Hk'. congruence.
  - rewrite hash_state in Hk'. cbn in Hk'. congruence.
Qed.

(** A message that has no key memoized is valid, whatever it carries. *)
Lemma key_memo_valid_new p sig h : key_memo_valid (mk_signedBase p sig h None).
Proof. intros k Hk. discriminate Hk. Qed.

Lemma key_memo_valid_hash s : key_memo_valid s -> key_memo_valid (op_state (hash s)).
Proof.
  intros Hvalid k Hk. pose proof (settled_hash s) as (Hd & _ & Hs & _).
  rewrite Hd, Hs. apply Hvalid. rewrite hash_state in Hk. exact Hk.
Qed.

(** The methods keep the memo valid: it is an invariant of a message that
    is only used through them. *)
Lemma key_memo_valid_calls ms : forall s,
  key_memo_valid s -> key_memo_valid (op_state (calls ms s)).
Proof.
  induction ms as [|m ms IH]; intros s Hvalid; [exact Hvalid|].
  destruct m; cbn [calls]; unfold op_bind.
  - pose proof (key_memo_valid_hash s Hvalid) as H1.
    destruct (hash s) as [[h s1] t1].
    specialize (IH s1 H1). destruct (calls ms s1) as [[hs s2] t2]. exact IH.
  - pose proof (key_memo_valid_publicKey s Hvalid) as H1.
    destruct (publicKey s) as [[k s1] t1].
    specialize (IH s1 H1). destruct (calls ms s1) as [[hs s2] t2]. exact IH.
  - pose proof (key_memo_valid_publicKey s Hvalid) as H1.
    rewrite <- address_state_eq in H1.
    destruct (address s) as [[k s1] t1].
    specialize (IH s1 H1). destruct (calls ms s1) as [[hs s2] t2]. exact IH.
  - pose proof (key_memo_valid_publicKey s Hvalid) as H1.
    rewrite <- verify_state_eq in H1.
    destruct (verify s) as [[k s1] t1].
    specialize (IH s1 H1). destruct (calls ms s1) as [[hs s2] t2]. exact IH.
Qed.

(** C7.  On a message whose memoized key, if it has one, is the key of
    the signature it carries: [publicKey] returns nil exactly when
    recovery from the signature and the hash fails, [address] returns nil
    exactly when [publicKey] does, and [verify] returns the bad-signature
    error exactly when [publicKey] returns nil and no error otherwise.
    The three are total functions: none of them can panic. *)
Theorem publicKey_none_iff s (Hvalid : key_memo_valid s) :
  (op_value (publicKey s) = None <->
     crypto.RecoverPublicKey (Signature s) (op_value (hash s)) = None) /\
  (op_value (address s) = None <-> op_value (publicKey s) = None) /\
  (op_value (verify s) = Some BadSignature <-> op_value (publicKey s) = None) /\
  (op_value (publicKey s) <> None -> op_value (verify s) = None).
Proof.
  rewrite hash_value, address_value, verify_value, publicKey_value.
  split; [|split; [|split]].
  - destruct (_publicKey s) as [k|] eqn:Hk; [|tauto].
    rewrite (Hvalid k Hk). tauto.
  - destruct (_publicKey s);
      [|destruct (crypto.RecoverPublicKey (Signature s) (digest_of s))];
      cbn; split; intros; first [discriminate | reflexivity].
  - destruct (_publicKey s);
      [|destruct (crypto.RecoverPublicKey (Signature s) (digest_of s))];
      cbn; split; intros; first [discriminate | reflexivity].
  - destruct (_publicKey s);
      [|destruct (crypto.RecoverPublicKey (Signature s) (digest_of s))];
      cbn; intros; first [reflexivity | contradiction].
Qed.

End SignedBaseFacts.

(** ** The vote list *)

Section GoInt.

Lemma wrap_int_small z : min_int <= z <= max_int -> wrap_int z = z.
Proof.
  unfold min_int, max_int, wrap_int, int_bits. intros Hz.
  change (2 ^ (64 - 1)) with 9223372036854775808 in *.
  change (2 ^ 64) with 18446744073709551616.
  rewrite Z.mod_small; lia.
Qed.

(** Within range, [n * 2 / 3] on Go's [int] is the floor of the exact
    quotient. *)
Lemma two_thirds_floor n :
  0 <= n <= max_int / 2 -> int_div (int_mul n 2) 3 = n * 2 / 3.
Proof.
  intros Hn. unfold int_div, int_mul.
  assert (Hmax : max_int / 2 = 4611686018427387903) by reflexivity.
  assert (Hm : max_int = 9223372036854775807) by reflexivity.
  assert (Hmin : min_int = -9223372036854775808) by reflexivity.
  rewrite (wrap_int_small (n * 2)) by lia.
  rewrite Z.quot_div_nonneg by lia.
  apply wrap_int_small.
  assert (0 <= n * 2 / 3) by (apply Z.div_pos; lia).
  assert (n * 2 / 3 <= n * 2) by (apply Z.div_le_upper_bound; lia).
  lia.
Qed.

End GoInt.

Section VerifyFacts.
Import consensus consensus.voteList.
Context `{CS : crypto.Suite} `{BS : byteser vote.t}.

Lemma publicKey_state_key (s : voteMessage) :
  _publicKey (op_state (publicKey s)) = op_value (publicKey s).
Proof.
  rewrite publicKey_unfold.
  destruct (_publicKey s) as [k|] eqn:Hk; [exact Hk|].
  cbn zeta. destruct (crypto.RecoverPublicKey (Signature s) (digest_of s)).
  - reflexivity.
  - unfold op_state at 1, op_value. cbn [fst snd]. rewrite hash_state. exact Hk.
Qed.

(** The loop is [range_result] run on the memo of the message. *)
Lemma Verify_range_value validators sigs : forall i (msg : voteMessage),
  op_value (Verify_range validators i sigs msg)
  = range_result (digest_of msg) validators (_publicKey msg) i sigs.
Proof.
  induction sigs as [|sig sigs IH]; intros i msg; [reflexivity|].
  cbn [Verify_range range_result]. unfold op_bind, op_get, op_put, op_emit.
  set (m1 := set_Signature sig msg).
  pose proof (address_value m1) as Hav.
  pose proof (address_state_eq m1) as Has.
  pose proof (publicKey_value m1) as Hkv.
  pose proof (publicKey_state_key m1) as Hks.
  pose proof (settled_publicKey m1) as (Hd & _).
  assert (Hkey : op_value (publicKey m1)
                 = match _publicKey msg with
                   | Some k => Some k
                   | None => crypto.RecoverPublicKey sig (digest_of msg)
                   end) by exact Hkv.
  rewrite Hkey in Hav, Hks.
  change (digest_of m1) with (digest_of msg) in Hd.
  destruct (address m1) as [[addr s1] t1].
  unfold op_value at 1 in Hav. unfold op_state at 1 in Has.
  cbn [fst snd] in Hav, Has. subst s1. rewrite <- Hav.
  destruct (ValidatorList.IndexOf validators addr <? 0) eqn:Hidx.
  - pose proof (address_value (op_state (publicKey m1))) as Hav2.
    rewrite publicKey_value, Hks in Hav2.
    destruct (address (op_state (publicKey m1))) as [[addr' s2] t2].
    unfold op_value in *. cbn [fst snd] in *.
    assert (addr' = addr) as ->.
    { rewrite Hav2, Hav. rewrite Hd.
      destruct (_publicKey msg); [reflexivity|].
      destruct (crypto.RecoverPublicKey sig (digest_of msg)) eqn:Hr; [reflexivity|].
      replace (Signature (op_state (publicKey m1))) with sig; [rewrite Hr; reflexivity|].
      pose proof (settled_publicKey m1) as (_ & _ & Hs & _). symmetry; exact Hs. }
    reflexivity.
  - specialize (IH (i + 1) (op_state (publicKey m1))).
    rewrite Hd, Hks in IH.
    destruct (Verify_range validators (i + 1) sigs (op_state (publicKey m1)))
      as [[r s2] t2].
    unfold op_value in *. cbn [fst snd] in *. exact IH.
Qed.

(** [Verify] decides what [range_result] and [quorum_result] decide. *)
Lemma Verify_value vl block :
  fst (Verify vl block) =
  if Block.Height block =? 1 then
    if len (Signatures vl) =? 0 then None else Some UnexpectedVoters
  else
    match range_result (vote_hash vl block) (Block.NextValidators block) None 0
                       (Signatures vl) with
    | Some e => Some e
    | None => quorum_result vl (Block.NextValidators block)
    end.
Proof.
  unfold Verify.
  destruct (Block.Height block =? 1); [destruct (len (Signatures vl) =? 0); reflexivity|].
  cbn [fst]. unfold Verify_votes, op_bind, op_emit.
  pose proof (Verify_range_value (Block.NextValidators block) (Signatures vl) 0
                (template vl block)) as Hr.
  unfold vote_hash. rewrite hash_value.
  change (_publicKey (template vl block)) with (@None crypto.PublicKey) in Hr.
  destruct (Verify_range (Block.NextValidators block) 0 (Signatures vl)
              (template vl block)) as [[r s1] t1].
  unfold op_value in *. cbn [fst snd] in *. rewrite <- Hr.
  destruct r as [e|]; [reflexivity|].
  unfold quorum_result.
  destruct (len (Signatures vl) >? _); reflexivity.
Qed.

Lemma resolves_inv vl block sig :
  resolves vl block sig = true ->
  exists k, crypto.RecoverPublicKey sig (vote_hash vl block) = Some k /\
            0 <= ValidatorList.IndexOf (Block.NextValidators block)
                   (Some (crypto.NewAccountAddressFromPublicKey k)).
Proof.
  unfold resolves, signer.
  destruct (crypto.RecoverPublicKey sig (vote_hash vl block)) as [k|]; cbn; [|discriminate].
  intros H. exists k. split; [reflexivity|]. apply Z.leb_le, H.
Qed.

(** Once a key is memoized and its address is a validator's, no later
    signature is looked at. *)
Lemma range_result_memo h validators k sigs : forall i,
  0 <= ValidatorList.IndexOf validators (Some (crypto.NewAccountAddressFromPublicKey k)) ->
  range_result h validators (Some k) i sigs = None.
Proof.
  induction sigs as [|sig sigs IH]; intros i Hk; [reflexivity|].
  cbn [range_result fmap option_fmap option_map].
  destruct (Z.ltb_spec (ValidatorList.IndexOf validators
              (Some (crypto.NewAccountAddressFromPublicKey k))) 0) as [Hlt|_]; [lia|].
  apply IH, Hk.
Qed.

(** After the height-1 case, a list whose first signature resolves is
    judged on the number of its signatures alone. *)
Lemma Verify_first_resolves vl block sig sigs :
  Block.Height block <> 1 ->
  Signatures vl = sig :: sigs ->
  resolves vl block sig = true ->
  fst (Verify vl block) = quorum_result vl (Block.NextValidators block).
Proof.
  intros Hh Hs Hr. rewrite Verify_value.
  destruct (Z.eqb_spec (Block.Height block) 1) as [|_]; [contradiction|].
  rewrite Hs. cbn [range_result].
  destruct (resolves_inv _ _ _ Hr) as (k & Hk & Hidx). rewrite Hk.
  cbn [fmap option_fmap option_map].
  destruct (Z.ltb_spec (ValidatorList.IndexOf (Block.NextValidators block)
              (Some (crypto.NewAccountAddressFromPublicKey k))) 0) as [Hlt|_]; [lia|].
  rewrite range_result_memo by exact Hidx. reflexivity.
Qed.

(** A list whose first signature does not resolve is rejected at index 0,
    provided the nil address is not a validator's. *)
Lemma Verify_first_fails vl block sig sigs :
  Block.Height block <> 1 ->
  ValidatorList.IndexOf (Block.NextValidators block) None < 0 ->
  Signatures vl = sig :: sigs ->
  resolves vl block sig = false ->
  fst (Verify vl block) = Some (BadVoter (signer vl block sig) 0).
Proof.
  intros Hh Hnil Hs Hr. rewrite Verify_value.
  destruct (Z.eqb_spec (Block.Height block) 1) as [|_]; [contradiction|].
  rewrite Hs. cbn [range_result].
  unfold resolves, signer in *.
  destruct (crypto.RecoverPublicKey sig (vote_hash vl block)) as [k|];
    cbn [fmap option_fmap option_map] in *.
  - apply Z.leb_gt in Hr. apply Z.ltb_lt in Hr. rewrite Hr. reflexivity.
  - apply Z.ltb_lt in Hnil. rewrite Hnil. reflexivity.
Qed.

Lemma Verify_all_resolve vl block :
  Block.Height block <> 1 ->
  Forall (fun sig => resolves vl block sig = true) (Signatures vl) ->
  fst (Verify vl block) = quorum_result vl (Block.NextValidators block).
Proof.
  intros Hh Hall. destruct (Signatures vl) as [|sig sigs] eqn:Hs.
  - rewrite Verify_value, Hs.
    destruct (Z.eqb_spec (Block.Height block) 1) as [|_]; [contradiction|].
    reflexivity.
  - apply Verify_first_resolves with (sig := sig) (sigs := sigs); auto.
    inversion Hall; assumption.
Qed.

Lemma quorum_result_floor vl validators :
  0 <= ValidatorList.Len validators <= max_int / 2 ->
  (quorum_result vl validators = None
     <-> len (Signatures vl) > ValidatorList.Len validators * 2 / 3) /\
  (len (Signatures vl) <= ValidatorList.Len validators * 2 / 3 ->
     quorum_result vl validators
     = Some (InsufficientVotes (len (Signatures vl)) (ValidatorList.Len validators))).
Proof.
  intros Hn. unfold quorum_result. rewrite two_thirds_floor by exact Hn.
  destruct (Z.gtb_spec (len (Signatures vl)) (ValidatorList.Len validators * 2 / 3))
    as [Hgt|Hle].
  - split; [split; [lia | reflexivity] | lia].
  - split; [split; [discriminate | lia] | reflexivity].
Qed.

(** C1.  For a block above height 1 (whose validator count is a count: not
    negative, and small enough for [count * 2] to fit Go's [int]) and a list
    whose signatures all resolve to next validators of the block, [Verify]
    returns nil exactly when the number of signatures is greater than the
    floor of [count * 2 / 3], and the insufficient-votes error otherwise. *)
Theorem Verify_two_thirds vl block
    (Hheight : 1 < Block.Height block)
    (Hcount : 0 <= ValidatorList.Len (Block.NextValidators block) <= max_int / 2)
    (Hres : Forall (fun sig => resolves vl block sig = true) (Signatures vl)) :
  (fst (Verify vl block) = None
     <-> len (Signatures vl) > ValidatorList.Len (Block.NextValidators block) * 2 / 3) /\
  (len (Signatures vl) <= ValidatorList.Len (Block.NextValidators block) * 2 / 3 ->
     fst (Verify vl block)
     = Some (InsufficientVotes (len (Signatures vl))
                               (ValidatorList.Len (Block.NextValidators block)))).
Proof.
  rewrite Verify_all_resolve by (lia || exact Hres).
  apply quorum_result_floor, Hcount.
Qed.

(** C2, as the code has it.  Above height 1 (the validator count being a
    count in range) a list passes [Verify] only if the number of its
    signatures is greater than the floor of [count * 2 / 3]; and a list
    with that many signatures, each resolving to some next validator of the
    block, passes: the signatures are counted, the signers need not be
    distinct. *)
Theorem Verify_counts_signatures vl block
    (Hheight : 1 < Block.Height block)
    (Hcount : 0 <= ValidatorList.Len (Block.NextValidators block) <= max_int / 2) :
  (fst (Verify vl block) = None ->
     len (Signatures vl) > ValidatorList.Len (Block.NextValidators block) * 2 / 3) /\
  (Forall (fun sig => resolves vl block sig = true) (Signatures vl) ->
   len (Signatures vl) > ValidatorList.Len (Block.NextValidators block) * 2 / 3 ->
     fst (Verify vl block) = None).
Proof.
  destruct (quorum_result_floor vl (Block.NextValidators block) Hcount) as [Hq _].
  split.
  - rewrite Verify_value.
    destruct (Z.eqb_spec (Block.Height block) 1) as [|_]; [lia|].
    destruct (range_result _ _ _ _ _); [discriminate|]. apply Hq.
  - intros Hres Hn. rewrite Verify_all_resolve by (lia || exact Hres). apply Hq, Hn.
Qed.

(** C3.  At height 1 [Verify] returns nil exactly when the list has no
    signature and the unexpected-voters error when it has one; it makes no
    call at all: the validators are not fetched, no index is looked up and
    no threshold is computed. *)
Theorem Verify_height_1 vl block (Hheight : Block.Height block = 1) :
  (fst (Verify vl block) = None <-> Signatures vl = []) /\
  (Signatures vl <> [] -> fst (Verify vl block) = Some UnexpectedVoters) /\
  snd (Verify vl block) = [].
Proof.
  unfold Verify. rewrite Hheight. cbn [Z.eqb Pos.eqb].
  unfold len. destruct (Signatures vl) as [|sig sigs]; cbn [length].
  - cbn. split; [tauto|]. split; [congruence|reflexivity].
  - rewrite Nat2Z.inj_succ.
    destruct (Z.eqb_spec (Z.succ (Z.of_nat (length sigs))) 0) as [Hz|_]; [lia|].
    cbn. split; [split; discriminate|]. split; reflexivity.
Qed.

End VerifyFacts.

Section VerifyExamples.
Import consensus consensus.voteList fixture.

(** C1, on four validators at height 10: three signatures of three
    validators are a quorum. *)
Lemma Verify_two_thirds_witness :
  fst (Verify (mk 0 None [sig_of x01; sig_of x02; sig_of x03]) (block 10 four)) = None
    <-> 3 > 4 * 2 / 3.
Proof.
  apply (Verify_two_thirds (mk 0 None [sig_of x01; sig_of x02; sig_of x03])
           (block 10 four)).
  - reflexivity.
  - vm_compute. split; discriminate.
  - repeat constructor.
Defined.

(** C3, at height 1 with one signature. *)
Lemma Verify_height_1_witness :
  fst (Verify (mk 0 None [sig_of x01]) (block 1 two)) = Some UnexpectedVoters.
Proof.
  apply (Verify_height_1 (mk 0 None [sig_of x01]) (block 1 two)).
  - reflexivity.
  - discriminate.
Defined.

(** C2 fails.  Four validators, height 10, and the one signature of the
    first validator three times over: the signers are not distinct, there
    is one where the quorum needs more than two, and [Verify] returns
    nil. *)
Lemma Verify_duplicates_pass :
  let vl := mk 0 None [sig_of x01; sig_of x01; sig_of x01] in
  let b := block 10 four in
  1 < Block.Height b /\
  ~ NoDup (signer vl b <$> Signatures vl) /\
  distinct_signers vl b = 1 /\
  ValidatorList.Len (Block.NextValidators b) * 2 / 3 = 2 /\
  fst (Verify vl b) = None.
Proof.
  cbn zeta. split; [reflexivity|]. split; [|repeat split].
  intros Hnd. apply NoDup_cons in Hnd as [Hin _]. apply Hin. left.
Qed.

(** C2 as the code has it, on that list. *)
Lemma Verify_counts_signatures_witness :
  fst (Verify (mk 0 None [sig_of x01; sig_of x01; sig_of x01]) (block 10 four)) = None.
Proof.
  apply (Verify_counts_signatures
           (mk 0 None [sig_of x01; sig_of x01; sig_of x01]) (block 10 four)).
  - reflexivity.
  - vm_compute. split; discriminate.
  - repeat constructor.
  - reflexivity.
Defined.

(** C4 fails.  Two validators, height 10.  The second signature of the list
    recovers no key, or the key of somebody who is not a validator; the
    first is a validator's.  [Verify] returns nil for both lists: the key
    memoized for the first signature answers for the second. *)
Theorem Verify_accepts_unresolved :
  let b := block 10 two in
  let vl1 := mk 0 None [sig_of x01; bad_sig] in
  let vl2 := mk 0 None [sig_of x01; sig_of x07] in
  signer vl1 b bad_sig = None /\
  resolves vl1 b bad_sig = false /\
  fst (Verify vl1 b) = None /\
  resolves vl2 b (sig_of x07) = false /\
  fst (Verify vl2 b) = None.
Proof. repeat split. Qed.

End VerifyExamples.

Section SignedBaseExamples.
Import consensus fixture.

(** C7, on a vote that holds the key of its signature. *)
Lemma publicKey_none_iff_witness :
  let s : voteMessage := mk_signedBase vote.zero (sig_of x01) None (Some (key x01)) in
  op_value (verify s) = Some BadSignature <-> op_value (publicKey s) = None.
Proof.
  apply (publicKey_none_iff
           (mk_signedBase vote.zero (sig_of x01) None (Some (key x01)))).
  intros k Hk. cbn in Hk. injection Hk as <-. reflexivity.
Defined.

End SignedBaseExamples.

(** ** Building a vote list *)

Section NewVoteListFacts.
Import consensus consensus.voteList.

Lemma set_Signatures_same vl : set_Signatures (Signatures vl) vl = vl.
Proof. destruct vl; reflexivity. Qed.

(** The loop from index [i] on: it writes the signatures of [msgs] from
    [i] on, in order, if their block identifiers agree with [blockID]. *)
Lemma newVoteList_for_agree msgs blockID n : forall i vl,
  (i + n)%nat = length msgs ->
  length (Signatures vl) = length msgs ->
  Forall (same_block blockID) (drop i msgs) ->
  newVoteList_for msgs blockID n i vl
  = Ret (set_Signatures (take i (Signatures vl) ++ (Signature <$> drop i msgs)) vl).
Proof.
  induction n as [|n IH]; intros i vl Hlen Hsigs Hall.
  - cbn. rewrite drop_ge by lia. rewrite take_ge by lia.
    cbn. rewrite app_nil_r, set_Signatures_same. reflexivity.
  - cbn [newVoteList_for].
    destruct (@lookup _ _ _ _ i msgs) as [m|] eqn:Hm;
      [|apply lookup_ge_None in Hm; lia].
    rewrite (drop_S _ _ _ Hm) in Hall |- *.
    inversion Hall as [|? ? Hsame Hrest]; subst.
    unfold common.bytes_Equal. rewrite bool_decide_eq_true_2 by (symmetry; exact Hsame).
    cbn [negb]. rewrite IH.
    + cbn [Signatures set_Signatures Round BlockPartSetID].
      rewrite (take_S_r _ _ (Signature m)) by (apply list_lookup_insert_eq; lia).
      rewrite take_insert_ge by lia.
      rewrite <- app_assoc. reflexivity.
    + lia.
    + cbn. rewrite length_insert. exact Hsigs.
    + exact Hrest.
Qed.

(** The loop from index [i] on panics at the first message whose block
    identifier differs. *)
Lemma newVoteList_for_differ msgs blockID n : forall i vl,
  (i + n)%nat = length msgs ->
  Exists (fun m => ~ same_block blockID m) (drop i msgs) ->
  exists m, m ∈ msgs /\ ~ same_block blockID m /\
    newVoteList_for msgs blockID n i vl
    = Panic (BadBlockID blockID (vote.BlockID (_byteser m))).
Proof.
  induction n as [|n IH]; intros i vl Hlen Hex.
  - rewrite drop_ge in Hex by lia. inversion Hex.
  - cbn [newVoteList_for].
    destruct (@lookup _ _ _ _ i msgs) as [m|] eqn:Hm;
      [|apply lookup_ge_None in Hm; lia].
    rewrite (drop_S _ _ _ Hm) in Hex.
    unfold common.bytes_Equal.
    destruct (decide (blockID = vote.BlockID (_byteser m))) as [Heq|Hne].
    + rewrite bool_decide_eq_true_2 by exact Heq. cbn [negb].
      apply IH; [lia|].
      inversion Hex as [? ? Hbad|? ? Hlater]; [|exact Hlater].
      exfalso. apply Hbad. symmetry. exact Heq.
    + rewrite bool_decide_eq_false_2 by exact Hne. cbn [negb].
      exists m. split; [eapply list_elem_of_lookup_2; exact Hm|].
      split; [|reflexivity]. intros Hs. apply Hne. symmetry. exact Hs.
Qed.

(** C6.  On a batch that is not empty: when some message has a block
    identifier other than the first message's, [newVoteList] panics (with
    the two identifiers that differ); when all agree, it returns the list
    with the round and the part-set identifier of the first message and
    the signatures of the messages in the order of the batch. *)
Theorem newVoteList_batch (m0 : voteMessage) (rest : list voteMessage) :
  let msgs := m0 :: rest in
  let blockID := vote.BlockID (_byteser m0) in
  (Exists (fun m => vote.BlockID (_byteser m) <> blockID) msgs ->
     exists m, m ∈ msgs /\ vote.BlockID (_byteser m) <> blockID /\
       newVoteList msgs = Panic (BadBlockID blockID (vote.BlockID (_byteser m)))) /\
  (Forall (fun m => vote.BlockID (_byteser m) = blockID) msgs ->
     newVoteList msgs
     = Ret (mk (vote.Round (_byteser m0)) (vote.BlockPartSetID (_byteser m0))
               (Signature <$> msgs))).
Proof.
  intros msgs blockID. unfold newVoteList. fold msgs.
  change (0 <? length msgs)%nat with true. cbn [lookup list_lookup msgs].
  fold msgs. fold blockID. split.
  - intros Hex.
    apply newVoteList_for_differ; [reflexivity | rewrite drop_0; exact Hex].
  - intros Hall.
    rewrite newVoteList_for_agree.
    + rewrite take_0, drop_0. reflexivity.
    + reflexivity.
    + cbn [Signatures]. apply length_replicate.
    + rewrite drop_0. exact Hall.
Qed.

End NewVoteListFacts.

(** ** The wire format of a vote list *)

Section CodecFacts.
Import consensus codec.

Lemma Z_of_byte_of_Z z : 0 <= z < 256 -> Z_of_byte (byte_of_Z z) = z.
Proof.
  intros Hz. unfold Z_of_byte, byte_of_Z. rewrite Z.mod_small by exact Hz.
  destruct (Byte.of_N (Z.to_N z)) as [b|] eqn:Hb.
  - cbn. apply Byte.to_of_N in Hb. rewrite Hb. lia.
  - apply Byte.of_N_None_iff in Hb. lia.
Qed.

Lemma get_put_uint32 n rest :
  0 <= n < 2 ^ 32 -> get_uint32 (put_uint32 n ++ rest) = Some (n, rest).
Proof.
  intros Hn. change (2 ^ 32) with 4294967296 in Hn.
  unfold put_uint32, get_uint32. cbn [app].
  change (2 ^ 24) with 16777216. change (2 ^ 16) with 65536. change (2 ^ 8) with 256.
  assert (H3 : 0 <= n / 16777216 < 256) by (Z.div_mod_to_equations; lia).
  rewrite (Z_of_byte_of_Z _ H3).
  assert (Hmod : forall z, Z_of_byte (byte_of_Z z) = z mod 256).
  { intros z.
    pose proof (Z.mod_pos_bound z 256 ltac:(lia)) as Hb.
    transitivity (Z_of_byte (byte_of_Z (z mod 256))).
    - unfold byte_of_Z. rewrite Z.mod_mod by lia. reflexivity.
    - apply Z_of_byte_of_Z, Hb. }
  rewrite !Hmod. f_equal. f_equal.
  Z.div_mod_to_equations; lia.
Qed.

Lemma decode_encode_int32 z e rest :
  encode_int32 z = Some e -> decode_int32 (e ++ rest) = Some (z, rest).
Proof.
  unfold encode_int32, decode_int32.
  destruct (Z.leb_spec (- 2 ^ 31) z) as [Hlo|]; [|discriminate].
  destruct (Z.ltb_spec z (2 ^ 31)) as [Hhi|]; [|discriminate].
  cbn [andb]. intros [= <-].
  change (2 ^ 31) with 2147483648 in *.
  assert (Hm : 0 <= z mod 2 ^ 32 < 2 ^ 32) by (apply Z.mod_pos_bound; lia).
  rewrite get_put_uint32 by exact Hm.
  change (2 ^ 32) with 4294967296 in *.
  destruct (Z.ltb_spec (z mod 4294967296) 2147483648) as [Hs|Hs]; f_equal; f_equal;
    Z.div_mod_to_equations; lia.
Qed.

Lemma get_encode_uint32 n pre rest :
  encode_uint32 n = Some pre -> get_uint32 (pre ++ rest) = Some (n, rest).
Proof.
  unfold encode_uint32.
  destruct (Z.leb_spec 0 n) as [Hlo|]; [|discriminate].
  destruct (Z.ltb_spec n (2 ^ 32)) as [Hhi|]; [|discriminate].
  cbn [andb]. intros [= <-]. apply get_put_uint32. lia.
Qed.

Lemma decode_encode_bytes bs e rest :
  encode_bytes bs = Some e -> decode_bytes (e ++ rest) = Some (bs, rest).
Proof.
  unfold encode_bytes, decode_bytes.
  destruct (encode_uint32 (len bs)) as [pre|] eqn:Hpre; [|discriminate].
  intros [= <-].
  rewrite <- app_assoc, (get_encode_uint32 _ _ _ Hpre).
  unfold len in *. rewrite length_app.
  destruct (Z.ltb_spec (Z.of_nat (length bs + length rest)) (Z.of_nat (length bs)));
    [lia|].
  rewrite Nat2Z.id, take_app_length, drop_app_length. reflexivity.
Qed.

Lemma decode_encode_optional o e rest :
  encode_optional o = Some e -> decode_optional (e ++ rest) = Some (o, rest).
Proof.
  destruct o as [bs|]; cbn [encode_optional].
  - destruct (encode_bytes bs) as [e'|] eqn:He; [|discriminate].
    intros [= <-]. cbn. rewrite (decode_encode_bytes _ _ _ He). reflexivity.
  - intros [= <-]. reflexivity.
Qed.

Lemma decode_encode_elements l : forall e rest,
  encode_elements l = Some e ->
  decode_elements (length l) (e ++ rest) = Some (l, rest).
Proof.
  induction l as [|x l IH]; intros e rest; cbn [encode_elements length decode_elements].
  - intros [= <-]. reflexivity.
  - destruct (encode_bytes x) as [ex|] eqn:Hx; [|discriminate].
    destruct (encode_elements l) as [es|] eqn:Hl; [|discriminate].
    intros [= <-]. rewrite <- app_assoc.
    rewrite (decode_encode_bytes _ _ _ Hx), (IH _ _ eq_refl). reflexivity.
Qed.

Lemma decode_encode_list l e rest :
  encode_list l = Some e -> decode_list (e ++ rest) = Some (l, rest).
Proof.
  unfold encode_list, decode_list.
  destruct (encode_uint32 (len l)) as [pre|] eqn:Hpre; [|discriminate].
  destruct (encode_elements l) as [es|] eqn:Hl; [|discriminate].
  intros [= <-]. rewrite <- app_assoc, (get_encode_uint32 _ _ _ Hpre).
  unfold len. rewrite Nat2Z.id. apply decode_encode_elements, Hl.
Qed.

(** Decoding inverts encoding, whatever follows the encoding and whatever
    value is decoded into. *)
Lemma MP_decode_encode vl bs rest into :
  voteList.MarshalToBytes vl = Some bs ->
  voteList.UnmarshalFromBytes (bs ++ rest) into = Some (rest, vl).
Proof.
  cbn [voteList.MarshalToBytes voteList.UnmarshalFromBytes MP].
  destruct (encode_int32 (voteList.Round vl)) as [r|] eqn:Hr; [|discriminate].
  destruct (encode_optional (voteList.BlockPartSetID vl)) as [p|] eqn:Hp; [|discriminate].
  destruct (encode_list (voteList.Signatures vl)) as [sg|] eqn:Hs; [|discriminate].
  intros [= <-]. rewrite <- !app_assoc.
  rewrite (decode_encode_int32 _ _ _ Hr), (decode_encode_optional _ _ _ Hp),
    (decode_encode_list _ _ _ Hs).
  destruct vl; reflexivity.
Qed.

(** What a decoder consumes: each one takes its bytes from the front. *)
Lemma get_uint32_length bs n rest :
  get_uint32 bs = Some (n, rest) -> length bs = (4 + length rest)%nat.
Proof.
  destruct bs as [|b3 [|b2 [|b1 [|b0 tl]]]]; cbn; try discriminate.
  intros [= _ <-]. reflexivity.
Qed.

Lemma decode_bytes_length bs v rest :
  decode_bytes bs = Some (v, rest) -> (4 + length rest <= length bs)%nat.
Proof.
  unfold decode_bytes. destruct (get_uint32 bs) as [[n tl]|] eqn:Hg; [|discriminate].
  apply get_uint32_length in Hg.
  destruct (len tl <? n); [discriminate|]. intros [= _ <-].
  rewrite length_drop. lia.
Qed.

Lemma decode_optional_length bs o rest :
  decode_optional bs = Some (o, rest) -> (1 + length rest <= length bs)%nat.
Proof.
  destruct bs as [|b tl]; [discriminate|].
  destruct b; try discriminate; cbn [decode_optional length].
  - intros [= _ <-]. lia.
  - destruct (decode_bytes tl) as [[v tl']|] eqn:Hd; [|discriminate].
    apply decode_bytes_length in Hd. intros [= _ <-]. lia.
Qed.

Lemma decode_elements_length n : forall bs l rest,
  decode_elements n bs = Some (l, rest) -> (length rest <= length bs)%nat.
Proof.
  induction n as [|n IH]; intros bs l rest; cbn [decode_elements].
  - intros [= _ <-]. lia.
  - destruct (decode_bytes bs) as [[x tl]|] eqn:Hd; [|discriminate].
    destruct (decode_elements n tl) as [[l' tl']|] eqn:He; [|discriminate].
    apply decode_bytes_length in Hd. apply IH in He. intros [= _ <-]. lia.
Qed.

Lemma decode_list_length bs l rest :
  decode_list bs = Some (l, rest) -> (4 + length rest <= length bs)%nat.
Proof.
  unfold decode_list. destruct (get_uint32 bs) as [[n tl]|] eqn:Hg; [|discriminate].
  apply get_uint32_length in Hg. intros He. apply decode_elements_length in He. lia.
Qed.

(** An encoding is at least nine bytes long: shorter input is rejected. *)
Lemma MP_decode_short bs into :
  (length bs < 9)%nat -> voteList.UnmarshalFromBytes bs into = None.
Proof.
  intros Hlen. cbn [voteList.UnmarshalFromBytes MP].
  unfold decode_int32.
  destruct (get_uint32 bs) as [[n bs1]|] eqn:Hr; [|reflexivity].
  apply get_uint32_length in Hr.
  destruct (decode_optional bs1) as [[p bs2]|] eqn:Hp; [|reflexivity].
  apply decode_optional_length in Hp.
  destruct (decode_list bs2) as [[sg bs3]|] eqn:Hs; [|reflexivity].
  apply decode_list_length in Hs. lia.
Qed.

End CodecFacts.

Section BytesFacts.
Import consensus consensus.voteList.

(** Over any codec whose decoder inverts its encoder, the constructor
    inverts [Bytes]. *)
Lemma NewVoteListFromBytes_Bytes_codec (C : Codec) :
  (forall vl bs, MarshalToBytes vl = Some bs ->
     exists rest, UnmarshalFromBytes bs zero = Some (rest, vl)) ->
  forall vl, is_Some (MarshalToBytes vl) -> NewVoteListFromBytes (Bytes vl) = Some vl.
Proof.
  intros Hlaw vl [bs Hbs]. unfold NewVoteListFromBytes, Bytes. rewrite Hbs.
  destruct (Hlaw vl bs Hbs) as [rest ->]. reflexivity.
Qed.

(** C5.  With the codec of the vote list: when serialization succeeds,
    the list built from [Bytes] has the round, the part-set identifier and
    the signatures of the list serialized; and on bytes that do not decode
    (every input of fewer than nine bytes is such) the constructor returns
    nil.  It is a total function: no input makes it panic. *)
Theorem NewVoteListFromBytes_Bytes :
  (forall vl, is_Some (@MarshalToBytes codec.vlCodec vl) ->
     exists vl', @NewVoteListFromBytes codec.vlCodec (@Bytes codec.vlCodec vl) = Some vl' /\
       Round vl' = Round vl /\
       BlockPartSetID vl' = BlockPartSetID vl /\
       Signatures vl' = Signatures vl) /\
  (forall bs, @UnmarshalFromBytes codec.vlCodec bs zero = None ->
     @NewVoteListFromBytes codec.vlCodec bs = None) /\
  (forall bs, (length bs < 9)%nat -> @NewVoteListFromBytes codec.vlCodec bs = None).
Proof.
  split; [|split].
  - intros vl Hok. exists vl. split; [|auto].
    apply (NewVoteListFromBytes_Bytes_codec codec.vlCodec); [|exact Hok].
    intros v bs Hbs. exists [].
    rewrite <- (app_nil_r bs) at 1. apply MP_decode_encode, Hbs.
  - intros bs Hbs. unfold NewVoteListFromBytes. rewrite Hbs. reflexivity.
  - intros bs Hlen. unfold NewVoteListFromBytes, codec.vlCodec.
    rewrite (MP_decode_short bs zero Hlen). reflexivity.
Qed.

End BytesFacts.

(** ** IISS accounts *)

Section AccountFacts.
Import icstate.
Context `{CT : Containers}.

Lemma Cmp_same x : (Cmp x x =? 0) = true.
Proof. unfold Cmp. rewrite Z.compare_refl. reflexivity. Qed.

Lemma Sign_negative v : (Sign v =? -1) = true <-> v < 0.
Proof.
  unfold Sign. destruct v; cbn; split; intros H; try discriminate; try lia; reflexivity.
Qed.

(** C9.  [Clone] of an account returns a new account (its address was not
    in use, the accounts there were are as they were) to which the original
    is [Equal]: the clone has the address, stake, delegating, bonding and
    unbonding of the original, and unstakes, delegations, bonds and unbonds
    that are [Equal] to the original's. *)
Theorem Clone_Equal `{!ContainersLaws} (st : store) (a : ptr) (x : Account)
    (Ha : st !! a = Some x) :
  exists c st' y,
    Clone a st = Ret (c, st') /\
    c <> a /\ st !! c = None /\ (forall p, p <> c -> st' !! p = st !! p) /\
    st' !! c = Some y /\
    Equal a (Impl_Account c) st' = Ret true /\
    address y = address x /\
    stake y = stake x /\
    Unstakes_Equal (unstakes x) (unstakes y) = true /\
    delegating y = delegating x /\
    Delegations_Equal (delegations x) (delegations y) = true /\
    bonding y = bonding x /\
    unbonding y = unbonding x /\
    Bonds_Equal (bonds x) (bonds y) = true /\
    Unbonds_Equal (unbonds x) (unbonds y) = true.
Proof.
  unfold Clone. rewrite Ha.
  set (c := fresh (dom st)).
  set (y := mk_Account _ _ _ _ _ _ _ _ _ _).
  assert (Hfresh : st !! c = None).
  { apply not_elem_of_dom. apply is_fresh. }
  assert (Hne : c <> a) by (intros ->; congruence).
  exists c, (<[c := y]> st), y.
  split; [reflexivity|]. split; [exact Hne|]. split; [exact Hfresh|].
  split; [intros p Hp; apply lookup_insert_ne; congruence|].
  split; [apply lookup_insert_eq|].
  split.
  - unfold Equal, equal. rewrite !bool_decide_eq_false_2 by congruence.
    rewrite lookup_insert_ne by exact Hne. rewrite Ha, lookup_insert_eq.
    subst y. cbn.
    rewrite EqualAddress_same, !Cmp_same, Unstakes_Equal_Clone,
      Delegations_Equal_Clone, Bonds_Equal_Clone, Unbonds_Equal_Clone.
    reflexivity.
  - subst y. cbn.
    rewrite Unstakes_Equal_Clone, Delegations_Equal_Clone, Bonds_Equal_Clone,
      Unbonds_Equal_Clone.
    repeat split.
Qed.

(** C10.  On a writable account, [SetStake v] with a negative [v] returns
    the error and changes nothing; with a [v] that is not negative it
    returns nil and the account then has stake [v], every other field being
    what it was, and the other accounts too. *)
Theorem SetStake_negative_rejected (st : store) (a : ptr) (x : Account) (v : Z)
    (Ha : st !! a = Some x) (Hw : readonly x = false) :
  (v < 0 -> SetStake a v st = Ret (Some NegativeStake, st)) /\
  (0 <= v ->
     exists y,
       SetStake a v st = Ret (None, <[a := y]> st) /\
       stake y = v /\
       readonly y = readonly x /\
       address y = address x /\
       unstakes y = unstakes x /\
       delegating y = delegating x /\
       delegations y = delegations x /\
       bonding y = bonding x /\
       unbonding y = unbonding x /\
       bonds y = bonds x /\
       unbonds y = unbonds x).
Proof.
  unfold SetStake, checkWritable. rewrite Ha, Hw. split.
  - intros Hv. apply Sign_negative in Hv. rewrite Hv. reflexivity.
  - intros Hv.
    destruct (Sign v =? -1) eqn:Hs; [apply Sign_negative in Hs; lia|].
    exists (set_stake v x). repeat split. exact Hw.
Qed.

End AccountFacts.

Section AccountExamples.
Import icstate fixture.

Lemma containers_laws : ContainersLaws.
Proof.
  assert (Hcopy : forall l : entries, map (fun e => (fst e, snd e)) l = l).
  { induction l as [|[k v] l IH]; cbn; [reflexivity | rewrite IH; reflexivity]. }
  split; intros x; cbn; try rewrite Hcopy; apply bool_decide_eq_true_2; reflexivity.
Defined.

(** C9, on the account at address 0 of a store of two accounts. *)
Lemma Clone_Equal_witness :
  exists c st' y,
    Clone 0%nat {[0%nat := account true 10; 1%nat := account false 3]} = Ret (c, st') /\
    c <> 0%nat /\
    ({[0%nat := account true 10; 1%nat := account false 3]} : store) !! c = None /\
    (forall p, p <> c ->
       st' !! p = ({[0%nat := account true 10; 1%nat := account false 3]} : store) !! p) /\
    st' !! c = Some y /\
    Equal 0%nat (Impl_Account c) st' = Ret true /\
    address y = address (account true 10) /\
    stake y = stake (account true 10) /\
    Unstakes_Equal (unstakes (account true 10)) (unstakes y) = true /\
    delegating y = delegating (account true 10) /\
    Delegations_Equal (delegations (account true 10)) (delegations y) = true /\
    bonding y = bonding (account true 10) /\
    unbonding y = unbonding (account true 10) /\
    Bonds_Equal (bonds (account true 10)) (bonds y) = true /\
    Unbonds_Equal (unbonds (account true 10)) (unbonds y) = true.
Proof.
  apply (@Clone_Equal containers containers_laws
           {[0%nat := account true 10; 1%nat := account false 3]} 0%nat
           (account true 10)).
  reflexivity.
Defined.

(** C10, on a writable account with stake 3, for -1. *)
Lemma SetStake_negative_rejected_witness :
  SetStake 1%nat (-1) {[0%nat := account true 10; 1%nat := account false 3]}
  = Ret (Some NegativeStake, {[0%nat := account true 10; 1%nat := account false 3]}).
Proof.
  apply (SetStake_negative_rejected
           {[0%nat := account true 10; 1%nat := account false 3]} 1%nat
           (account false 3) (-1)).
  - reflexivity.
  - reflexivity.
  - lia.
Defined.

End AccountExamples.

(** * Further properties *)

(** ** The signed base: what is memoized *)

Section SignedBaseMemo.
Import consensus.
Context `{CS : crypto.Suite} {P : Type} `{BS : byteser P}.
Implicit Types s : signedBase P.

Lemma recoveries_app t1 t2 : recoveries (t1 ++ t2) = (recoveries t1 + recoveries t2)%nat.
Proof. unfold recoveries. rewrite List.filter_app, length_app. reflexivity. Qed.

Lemma hash_trace_recoveries s : recoveries (op_trace (hash s)) = 0%nat.
Proof. rewrite hash_trace. destruct (_hash s); reflexivity. Qed.

Lemma publicKey_state s :
  op_state (publicKey s) =
  match _publicKey s with
  | Some _ => s
  | None =>
      match crypto.RecoverPublicKey (Signature s) (digest_of s) with
      | Some k => set_publicKey (Some k) (op_state (hash s))
      | None => op_state (hash s)
      end
  end.
Proof.
  rewrite publicKey_unfold. destruct (_publicKey s); [reflexivity|].
  cbn zeta. destruct (crypto.RecoverPublicKey (Signature s) (digest_of s)); reflexivity.
Qed.

Lemma publicKey_trace s :
  op_trace (publicKey s) =
  match _publicKey s with
  | Some _ => []
  | None => op_trace (hash s) ++ [EvRecoverPublicKey (Signature s) (digest_of s)]
  end.
Proof.
  rewrite publicKey_unfold. destruct (_publicKey s); [reflexivity|].
  cbn zeta. destruct (crypto.RecoverPublicKey (Signature s) (digest_of s)); reflexivity.
Qed.

Lemma publicKey_state_memo s :
  _publicKey (op_state (publicKey s)) = op_value (publicKey s).
Proof.
  rewrite publicKey_state, publicKey_value.
  destruct (_publicKey s) as [k|] eqn:Hk; [exact Hk|].
  destruct (crypto.RecoverPublicKey (Signature s) (digest_of s)); [reflexivity|].
  rewrite hash_state. exact Hk.
Qed.

(** X1.  [publicKey] memoizes a recovered key and nothing else.  After a
    call that returned a key, the next call returns it with no call to the
    crypto package and no change of the message.  After a call that
    returned nil, the next call returns nil again and runs the recovery
    again (once), without hashing again. *)
Theorem publicKey_memoizes_success_only s :
  (forall k, op_value (publicKey s) = Some k ->
     publicKey (op_state (publicKey s)) = (Some k, op_state (publicKey s), [])) /\
  (op_value (publicKey s) = None ->
     op_value (publicKey (op_state (publicKey s))) = None /\
     recoveries (op_trace (publicKey (op_state (publicKey s)))) = 1%nat /\
     digests (op_trace (publicKey (op_state (publicKey s)))) = 0%nat).
Proof.
  split.
  - intros k Hk. rewrite <- publicKey_state_memo in Hk.
    rewrite (publicKey_unfold (op_state (publicKey s))), Hk. reflexivity.
  - intros Hnone.
    pose proof (publicKey_state_memo s) as Hmemo. rewrite Hnone in Hmemo.
    destruct (settled_publicKey s) as (Hd & _ & Hs & Hm & _).
    rewrite publicKey_value in Hnone.
    destruct (_publicKey s) as [k0|] eqn:Hk0; [discriminate|].
    assert (Hh : _hash (op_state (publicKey s)) <> None).
    { rewrite publicKey_state, Hk0, Hnone, hash_state. discriminate. }
    rewrite publicKey_value, publicKey_trace, Hmemo, Hd, Hs.
    split; [exact Hnone|].
    rewrite recoveries_app, digests_app, hash_trace_recoveries, hash_trace.
    destruct (_hash (op_state (publicKey s))); [split; reflexivity | contradiction].
Qed.

Lemma hash_settled_of_settled s s' t : settled_after s s' t -> hash_settled s s' t.
Proof. intros (Hd & _ & _ & Hm & Hc). repeat split; auto. Qed.

Lemma hash_settled_trans s s1 s2 t1 t2 :
  hash_settled s s1 t1 -> hash_settled s1 s2 t2 -> hash_settled s s2 (t1 ++ t2).
Proof.
  intros (Hd1 & Hm1 & Hc1) (Hd2 & Hm2 & Hc2).
  unfold hash_settled. rewrite digests_app.
  split; [congruence|]. split; [auto|].
  destruct Hc1 as [H1 | (H1 & Hn & Hn1)]; destruct Hc2 as [H2 | (H2 & Hn2 & Hn3)];
    rewrite H1, H2; cbn.
  - left; reflexivity.
  - right. split; [reflexivity|]. split; [|exact Hn3].
    destruct (_hash s) eqn:E; [|reflexivity]. exfalso. apply Hm1; congruence.
  - right. split; [reflexivity|]. split; [exact Hn|]. apply Hm2, Hn1.
  - contradiction.
Qed.

Lemma hash_settled_bind {A B} (m : Op (signedBase P) A) (k : A -> Op (signedBase P) B) s :
  hash_settled s (op_state (m s)) (op_trace (m s)) ->
  hash_settled (op_state (m s)) (op_state (k (op_value (m s)) (op_state (m s))))
               (op_trace (k (op_value (m s)) (op_state (m s)))) ->
  hash_settled s (op_state (op_bind m k s)) (op_trace (op_bind m k s)).
Proof.
  unfold op_bind. destruct (m s) as [[a s1] t1].
  unfold op_value, op_state, op_trace. cbn [fst snd].
  destruct (k a s1) as [[b s2] t2]. cbn [fst snd]. apply hash_settled_trans.
Qed.

Lemma hash_settled_step s s' (e : list Event) :
  digest_of s' = digest_of s -> _hash s' = _hash s -> digests e = 0%nat ->
  hash_settled s s' e.
Proof.
  intros Hd Hh He. split; [exact Hd|]. split; [congruence|]. left; exact He.
Qed.

End SignedBaseMemo.

(** ** The vote list: what [Verify] looks at *)

Section VerifyMore.
Import consensus consensus.voteList.
Context `{CS : crypto.Suite} `{BS : byteser vote.t}.

Lemma Verify_range_hash_settled validators sigs : forall i (msg : voteMessage),
  hash_settled msg (op_state (Verify_range validators i sigs msg))
               (op_trace (Verify_range validators i sigs msg)).
Proof.
  induction sigs as [|sig sigs IH]; intros i msg.
  - apply hash_settled_step; reflexivity.
  - cbn [Verify_range].
    apply hash_settled_bind; [apply hash_settled_step; reflexivity|].
    apply hash_settled_bind; [apply hash_settled_step; reflexivity|].
    apply hash_settled_bind; [apply hash_settled_of_settled, settled_address|].
    apply hash_settled_bind; [apply hash_settled_step; reflexivity|].
    destruct (ValidatorList.IndexOf validators _ <? 0).
    + apply hash_settled_bind; [apply hash_settled_step; reflexivity|].
      apply hash_settled_bind; [apply hash_settled_of_settled, settled_address|].
      apply hash_settled_step; reflexivity.
    + apply IH.
Qed.

(** X2.  [Verify] hashes the vote at most once, however many signatures
    the list has: the digest is memoized on the one message it builds. *)
Theorem Verify_hashes_once vl block :
  (digests (snd (Verify vl block)) <= 1)%nat.
Proof.
  unfold Verify.
  destruct (Block.Height block =? 1);
    [destruct (len (Signatures vl) =? 0); cbn; lia|].
  cbn [snd]. unfold Verify_votes.
  assert (H : hash_settled (template vl block)
                (op_state (Verify_votes vl block (template vl block)))
                (op_trace (Verify_votes vl block (template vl block)))).
  { unfold Verify_votes.
    apply hash_settled_bind; [apply hash_settled_step; reflexivity|].
    apply hash_settled_bind; [apply Verify_range_hash_settled|].
    destruct (op_value _) as [e|]; [apply hash_settled_step; reflexivity|].
    apply hash_settled_bind; [apply hash_settled_step; reflexivity|].
    destruct (len (Signatures vl) >? _); [apply hash_settled_step; reflexivity|].
    apply hash_settled_bind; apply hash_settled_step; reflexivity. }
  destruct H as (_ & _ & [H0 | (H1 & _)]); unfold Verify_votes in *; lia.
Qed.

(** X3.  Above height 1 (and with a validator set in which the nil address
    is no validator), the first signature of a list decides for the whole
    list: if it resolves to a next validator, [Verify] returns what the
    count of signatures gives, whatever the other signatures are; if it
    does not, [Verify] returns the bad-voter error for index 0. *)
Theorem Verify_first_signature_decides vl block sig sigs
    (Hheight : Block.Height block <> 1)
    (Hnil : ValidatorList.IndexOf (Block.NextValidators block) None < 0)
    (Hsigs : Signatures vl = sig :: sigs) :
  fst (Verify vl block) =
  if resolves vl block sig
  then quorum_result vl (Block.NextValidators block)
  else Some (BadVoter (signer vl block sig) 0).
Proof.
  destruct (resolves vl block sig) eqn:Hr.
  - eapply Verify_first_resolves; eauto.
  - eapply Verify_first_fails; eauto.
Qed.

(** X4.  A list without signatures is rejected at every height other than
    1, with the insufficient-votes error for 0 votes, and without a call
    to the crypto package or an index lookup: the validators are fetched
    and their number is read, nothing else. *)
Theorem Verify_no_signature vl block
    (Hheight : Block.Height block <> 1)
    (Hcount : 0 <= ValidatorList.Len (Block.NextValidators block) <= max_int / 2)
    (Hsigs : Signatures vl = []) :
  Verify vl block =
  (Some (InsufficientVotes 0 (ValidatorList.Len (Block.NextValidators block))),
   [EvNextValidators; EvLen; EvLen]).
Proof.
  unfold Verify.
  destruct (Z.eqb_spec (Block.Height block) 1) as [|_]; [contradiction|].
  unfold Verify_votes. rewrite Hsigs.
  unfold op_bind, op_emit, op_ret, op_value, op_trace. cbn [Verify_range fst snd app].
  unfold op_ret. rewrite two_thirds_floor by exact Hcount.
  change (len (@nil common.Signature)) with 0.
  destruct (Z.gtb_spec 0 (ValidatorList.Len (Block.NextValidators block) * 2 / 3))
    as [Hgt|_]; [|reflexivity].
  assert (0 <= ValidatorList.Len (Block.NextValidators block) * 2 / 3)
    by (apply Z.div_pos; lia).
  lia.
Qed.

End VerifyMore.

(** ** Building a vote list: what is returned *)

Section NewVoteListMore.
Import consensus consensus.voteList.

(** X5.  [newVoteList] returns a list only for a batch whose messages all
    carry one block identifier (the empty batch included, for which it
    returns the zero list): the list then has exactly the signatures of
    the batch, in order.  It never returns a list built from part of a
    batch. *)
Theorem newVoteList_returns_whole_batch (msgs : list voteMessage) vl
    (Hret : newVoteList msgs = Ret vl) :
  Signatures vl = Signature <$> msgs /\
  (forall m1 m2, m1 ∈ msgs -> m2 ∈ msgs ->
     vote.BlockID (_byteser m1) = vote.BlockID (_byteser m2)) /\
  (msgs = [] -> vl = zero).
Proof.
  destruct msgs as [|m0 rest].
  - cbn in Hret. injection Hret as <-.
    split; [reflexivity|]. split; [|reflexivity].
    intros m1 m2 Hin. inversion Hin.
  - unfold newVoteList in Hret.
    change (0 <? length (m0 :: rest))%nat with true in Hret.
    cbn [lookup list_lookup] in Hret.
    destruct (Forall_Exists_dec
                (fun m : voteMessage =>
                   vote.BlockID (_byteser m) = vote.BlockID (_byteser m0))
                (fun m : voteMessage =>
                   vote.BlockID (_byteser m) <> vote.BlockID (_byteser m0))
                (fun m => decide _) (m0 :: rest)) as [Hall|Hex].
    + rewrite newVoteList_for_agree in Hret;
        [|reflexivity | apply length_replicate | rewrite drop_0; exact Hall].
      rewrite take_0, drop_0 in Hret. injection Hret as <-.
      split; [reflexivity|]. split; [|discriminate].
      intros m1 m2 H1 H2. rewrite Forall_forall in Hall.
      rewrite (Hall m1 H1), (Hall m2 H2). reflexivity.
    + destruct (newVoteList_for_differ (m0 :: rest) (vote.BlockID (_byteser m0))
                  (length (m0 :: rest)) 0
                  (mk (vote.Round (_byteser m0)) (vote.BlockPartSetID (_byteser m0))
                      (replicate (length (m0 :: rest)) [])))
        as (m & _ & _ & Hpanic); [reflexivity | rewrite drop_0; exact Hex|].
      rewrite Hpanic in Hret. discriminate Hret.
Qed.

End NewVoteListMore.

(** ** Accounts: slashing, snapshots and copies *)

Section AccountMore.
Import icstate.
Context `{CT : Containers}.

(** X6.  On a writable account [SlashStake] takes [amount] off the stake
    when the stake covers it: the voting power drops by [amount] and the
    voting amount stays.  When [amount] is more than the stake it returns
    the negative-stake error and changes nothing. *)
Theorem SlashStake_within_stake (st : store) (a : ptr) (x : Account) (amount : Z)
    (Ha : st !! a = Some x) (Hw : readonly x = false) :
  (amount <= stake x ->
     SlashStake a amount st = Ret (None, <[a := set_stake (stake x - amount) x]> st) /\
     GetVotingPower (set_stake (stake x - amount) x) = GetVotingPower x - amount /\
     GetVoting (set_stake (stake x - amount) x) = GetVoting x) /\
  (stake x < amount -> SlashStake a amount st = Ret (Some NegativeStake, st)).
Proof.
  unfold SlashStake, SetStake, checkWritable. rewrite Ha, Hw. split.
  - intros Hle.
    destruct (Sign (stake x - amount) =? -1) eqn:Hs;
      [apply Sign_negative in Hs; lia|].
    split; [reflexivity|]. unfold GetVotingPower, GetVoting. cbn. lia.
  - intros Hlt.
    assert (Hs : (Sign (stake x - amount) =? -1) = true) by (apply Sign_negative; lia).
    rewrite Hs. reflexivity.
Qed.

(** X7.  [GetSnapshot] of a writable account allocates a new account that
    is frozen, holds the address and the amounts of the original and is
    [Equal] to it; the original and every other account stay as they
    were.  [GetSnapshot] of a frozen account returns that very account and
    allocates nothing. *)
Theorem GetSnapshot_frozen_copy `{!ContainersLaws} (st : store) (a : ptr) (x : Account)
    (Ha : st !! a = Some x) :
  (readonly x = true -> GetSnapshot a st = Ret (a, st)) /\
  (readonly x = false ->
     exists c st' y,
       GetSnapshot a st = Ret (c, st') /\
       st !! c = None /\
       (forall p, p <> c -> st' !! p = st !! p) /\
       st' !! c = Some y /\
       readonly y = true /\
       address y = address x /\
       stake y = stake x /\
       delegating y = delegating x /\
       bonding y = bonding x /\
       unbonding y = unbonding x /\
       Equal a (Impl_Account c) st' = Ret true).
Proof.
  unfold GetSnapshot, IsReadonly. rewrite Ha. split; intros Hro; rewrite Hro; [reflexivity|].
  unfold Clone. rewrite Ha.
  set (c := fresh (dom st)).
  set (y := mk_Account _ _ _ _ _ _ _ _ _ _).
  assert (Hfresh : st !! c = None) by (apply not_elem_of_dom, is_fresh).
  assert (Hne : c <> a) by (intros ->; congruence).
  rewrite lookup_insert_eq.
  exists c, (<[c := freeze y]> (<[c := y]> st)), (freeze y).
  split; [reflexivity|]. split; [exact Hfresh|].
  split; [intros p Hp; rewrite !lookup_insert_ne by congruence; reflexivity|].
  split; [apply lookup_insert_eq|].
  repeat (split; [reflexivity|]).
  unfold Equal, equal. rewrite !bool_decide_eq_false_2 by congruence.
  rewrite !lookup_insert_ne by exact Hne. rewrite Ha, lookup_insert_eq.
  subst y. cbn.
  rewrite EqualAddress_same, !Cmp_same, Unstakes_Equal_Clone,
    Delegations_Equal_Clone, Bonds_Equal_Clone, Unbonds_Equal_Clone.
  reflexivity.
Qed.

(** X8.  A snapshot is cut off from its original.  After [GetSnapshot] of
    a writable account, setting the stake of the original leaves the
    snapshot as it is; setting the stake of the snapshot panics and so
    does slashing it; and taking a snapshot of the snapshot returns the
    snapshot itself. *)
Theorem GetSnapshot_isolated (st st' : store) (a c : ptr) (x : Account) (v : Z)
    (Ha : st !! a = Some x) (Hw : readonly x = false)
    (Hsnap : GetSnapshot a st = Ret (c, st')) (Hv : 0 <= v) :
  (exists st'', SetStake a v st' = Ret (None, st'') /\ st'' !! c = st' !! c) /\
  SetStake c v st' = Panic NotWritable /\
  SlashStake c v st' = Panic NotWritable /\
  GetSnapshot c st' = Ret (c, st').
Proof.
  unfold GetSnapshot, IsReadonly in Hsnap. rewrite Ha, Hw in Hsnap.
  unfold Clone in Hsnap. rewrite Ha in Hsnap.
  set (c0 := fresh (dom st)) in *.
  assert (Hfresh : st !! c0 = None) by (apply not_elem_of_dom, is_fresh).
  assert (Hne : c0 <> a) by (intros ->; congruence).
  rewrite lookup_insert_eq in Hsnap. injection Hsnap as <- <-.
  assert (Hc : forall y0 : Account,
             (<[c0 := freeze y0]> (<[c0 := y0]> st) : store) !! c0 = Some (freeze y0))
    by (intros; apply lookup_insert_eq).
  assert (Hla : forall y0 : Account,
             (<[c0 := freeze y0]> (<[c0 := y0]> st) : store) !! a = Some x)
    by (intros; rewrite !lookup_insert_ne by exact Hne; exact Ha).
  split; [|split; [|split]].
  - unfold SetStake, checkWritable. rewrite Hla, Hw.
    destruct (Sign v =? -1) eqn:Hs; [apply Sign_negative in Hs; lia|].
    eexists. split; [reflexivity|].
    rewrite lookup_insert_ne by congruence. reflexivity.
  - unfold SetStake, checkWritable. rewrite Hc. reflexivity.
  - unfold SlashStake, SetStake, checkWritable. rewrite Hc. reflexivity.
  - unfold GetSnapshot, IsReadonly. rewrite Hc. reflexivity.
Qed.

(** X9.  After [a.Set(other)] on a writable [a], [other.Equal(a)] holds:
    [a] takes the address and the amounts of [other] and clones of its
    containers, keeps its own writability, and no other account changes. *)
Theorem Set_makes_Equal `{!ContainersLaws} (st : store) (a other : ptr) (x y : Account)
    (Ha : st !! a = Some x) (Hw : readonly x = false) (Ho : st !! other = Some y) :
  exists st' z,
    Set_ a other st = Ret st' /\
    st' !! a = Some z /\
    (forall p, p <> a -> st' !! p = st !! p) /\
    readonly z = readonly x /\
    address z = address y /\
    stake z = stake y /\
    delegating z = delegating y /\
    bonding z = bonding y /\
    unbonding z = unbonding y /\
    Equal other (Impl_Account a) st' = Ret true.
Proof.
  unfold Set_, checkWritable. rewrite Ha, Hw, Ho.
  eexists _, _. split; [reflexivity|].
  split; [apply lookup_insert_eq|].
  split; [intros p Hp; apply lookup_insert_ne; congruence|].
  repeat (split; [reflexivity|]).
  unfold Equal, equal.
  destruct (decide (other = a)) as [->|Hne].
  - rewrite bool_decide_eq_true_2 by reflexivity. reflexivity.
  - rewrite !bool_decide_eq_false_2 by exact Hne.
    rewrite lookup_insert_ne by congruence. rewrite Ho, lookup_insert_eq. cbn.
    rewrite EqualAddress_same, !Cmp_same, Unstakes_Equal_Clone,
      Delegations_Equal_Clone, Bonds_Equal_Clone, Unbonds_Equal_Clone.
    reflexivity.
Qed.

End AccountMore.

(** ** Accounts: timers of unbonds and unstakes *)

Section AccountTimers.
Import icstate.
Context `{SL : Slices}.

#[local] Abbreviation Account := (@icstate.Account (@Slices_Containers SL)).
#[local] Abbreviation store := (gmap nat (@icstate.Account (@Slices_Containers SL))).

Lemma RemoveUnbonding_range_spec height us : forall tmp removed,
  RemoveUnbonding_range height us tmp removed
  = (tmp ++ remaining height us, removed + unbond_total (expiring height us)).
Proof.
  unfold unbond_total, expiring, remaining.
  induction us as [|u us IH]; intros tmp removed; cbn.
  - rewrite app_nil_r, Z.add_0_r. reflexivity.
  - destruct (Unbond.Expire u =? height); cbn.
    + rewrite IH. f_equal. lia.
    + rewrite IH, <- app_assoc. reflexivity.
Qed.

Lemma length_remaining_expiring height us :
  (length (remaining height us) + length (expiring height us))%nat = length us.
Proof.
  unfold remaining, expiring.
  induction us as [|u us IH]; cbn; [reflexivity|].
  destruct (Unbond.Expire u =? height); cbn; lia.
Qed.

Lemma unbond_total_split height us :
  unbond_total us = unbond_total (remaining height us) + unbond_total (expiring height us).
Proof.
  unfold unbond_total, remaining, expiring.
  induction us as [|u us IH]; cbn; [reflexivity|].
  destruct (Unbond.Expire u =? height); cbn; lia.
Qed.

Lemma expiring_remaining height us : expiring height (remaining height us) = [].
Proof.
  unfold remaining, expiring.
  induction us as [|u us IH]; cbn; [reflexivity|].
  destruct (Unbond.Expire u =? height) eqn:He; cbn; [exact IH|].
  rewrite He. exact IH.
Qed.

Lemma remaining_Forall height us :
  Forall (fun u => Unbond.Expire u <> height) (remaining height us).
Proof.
  unfold remaining.
  induction us as [|u us IH]; cbn; [constructor|].
  destruct (Z.eqb_spec (Unbond.Expire u) height); cbn; [exact IH|].
  constructor; assumption.
Qed.

Lemma RemoveUnbonding_unfold (st : store) a x height :
  st !! a = Some x -> readonly x = false ->
  RemoveUnbonding a height st =
  match expiring height (unbonds x) with
  | [] =>
      match address x with
      | None => Panic NilDereference
      | Some addr => Ret (Some (NoUnbondingTimer addr height), st)
      end
  | _ :: _ =>
      Ret (None, <[a := set_unbonds (remaining height (unbonds x))
                          (unbonding x - unbond_total (expiring height (unbonds x))) x]> st)
  end.
Proof.
  intros Ha Hw. unfold RemoveUnbonding, checkWritable. rewrite Ha, Hw.
  rewrite RemoveUnbonding_range_spec. cbn [app].
  pose proof (length_remaining_expiring height (unbonds x)) as Hlen.
  unfold len.
  destruct (expiring height (unbonds x)) as [|u l] eqn:Hexp; cbn [length] in Hlen.
  - destruct (Z.eqb_spec (Z.of_nat (length (remaining height (unbonds x))))
                (Z.of_nat (length (unbonds x)))) as [_|Hne]; [reflexivity | lia].
  - destruct (Z.eqb_spec (Z.of_nat (length (remaining height (unbonds x))))
                (Z.of_nat (length (unbonds x)))) as [Heq|_]; [lia|].
    rewrite Z.add_0_l. reflexivity.
Qed.

(** X10.  [RemoveUnbonding] on a writable account.  When no unbond
    expires at [height] it changes nothing and returns the no-timer error,
    and panics instead when the address of the account is nil (the
    message calls [String] on it).  When some do, it drops exactly these,
    keeps the others in order, lowers [unbonding] by the sum of the values
    dropped and returns nil. *)
Theorem RemoveUnbonding_drops_expired (st : store) (a : ptr) (x : Account) (height : Z)
    (Ha : st !! a = Some x) (Hw : readonly x = false) :
  (expiring height (unbonds x) = [] ->
     (forall addr, address x = Some addr ->
        RemoveUnbonding a height st = Ret (Some (NoUnbondingTimer addr height), st)) /\
     (address x = None -> RemoveUnbonding a height st = Panic NilDereference)) /\
  (expiring height (unbonds x) <> [] ->
     RemoveUnbonding a height st
     = Ret (None, <[a := set_unbonds (remaining height (unbonds x))
                           (unbonding x - unbond_total (expiring height (unbonds x))) x]> st)).
Proof.
  rewrite (RemoveUnbonding_unfold st a x height Ha Hw).
  destruct (expiring height (unbonds x)) as [|u l]; split.
  - intros _. split; [intros addr ->; reflexivity | intros ->; reflexivity].
  - intros H. contradiction.
  - discriminate.
  - reflexivity.
Qed.

(** X11.  A [RemoveUnbonding] that returns nil keeps the books: if
    [unbonding] was the sum of the values of the unbonds before, it is
    so after; no unbond of the account expires at [height] any more, so
    that a second [RemoveUnbonding] at that height returns the no-timer
    error; and no other account is touched. *)
Theorem RemoveUnbonding_keeps_total (st st' : store) (a : ptr) (x : Account)
    (height : Z) (addr : common.Address)
    (Ha : st !! a = Some x) (Hw : readonly x = false) (Haddr : address x = Some addr)
    (Hok : RemoveUnbonding a height st = Ret (None, st')) :
  exists y,
    st' !! a = Some y /\
    (forall p, p <> a -> st' !! p = st !! p) /\
    Forall (fun u => Unbond.Expire u <> height) (unbonds y) /\
    (unbonding x = unbond_total (unbonds x) -> unbonding y = unbond_total (unbonds y)) /\
    RemoveUnbonding a height st' = Ret (Some (NoUnbondingTimer addr height), st').
Proof.
  rewrite (RemoveUnbonding_unfold st a x height Ha Hw) in Hok.
  destruct (expiring height (unbonds x)) as [|u l] eqn:Hexp.
  - rewrite Haddr in Hok. discriminate Hok.
  - injection Hok as <-.
    set (y := set_unbonds (remaining height (unbonds x))
                (unbonding x - unbond_total (u :: l)) x).
    exists y. split; [apply lookup_insert_eq|].
    split; [intros p Hp; apply lookup_insert_ne; congruence|].
    split; [subst y; apply remaining_Forall|].
    split.
    + intros Hsum. subst y. cbn [unbonding unbonds set_unbonds].
      rewrite (unbond_total_split height (unbonds x)), Hexp in Hsum.
      rewrite Hsum.
      change (unbond_total (u :: l)) with (Unbond.Value u + unbond_total l). lia.
    + rewrite (RemoveUnbonding_unfold (<[a := y]> st) a y height
                 (lookup_insert_eq _ _ _) Hw).
      subst y. cbn [unbonds set_unbonds address].
      rewrite expiring_remaining, Haddr. reflexivity.
Qed.

Lemma last_cons_default {A} (l : list A) : forall a d,
  List.last (a :: l) d = List.last l a.
Proof.
  induction l as [|b l IH]; intros a d; [reflexivity|].
  change (List.last (a :: b :: l) d) with (List.last (b :: l) d).
  rewrite (IH b d), (IH b a). reflexivity.
Qed.

Lemma RemoveUnstaking_range_spec height us : forall tmp ra,
  RemoveUnstaking_range height us tmp ra
  = (tmp ++ unstakes_remaining height us,
     List.last (Amount <$> unstakes_expiring height us) ra).
Proof.
  unfold unstakes_remaining, unstakes_expiring.
  induction us as [|u us IH]; intros tmp ra; cbn.
  - rewrite app_nil_r. reflexivity.
  - destruct (ExpireHeight u =? height); cbn [negb].
    + rewrite IH. f_equal. cbn [fmap list_fmap].
      symmetry. apply last_cons_default.
    + rewrite IH, <- app_assoc. reflexivity.
Qed.

Lemma length_unstakes_split height us :
  (length (unstakes_remaining height us) + length (unstakes_expiring height us))%nat
  = length us.
Proof.
  unfold unstakes_remaining, unstakes_expiring.
  induction us as [|u us IH]; cbn; [reflexivity|].
  destruct (ExpireHeight u =? height); cbn; lia.
Qed.

Lemma unstakes_remaining_all height us :
  unstakes_expiring height us = [] -> unstakes_remaining height us = us.
Proof.
  unfold unstakes_remaining, unstakes_expiring.
  induction us as [|u us IH]; cbn; [reflexivity|].
  destruct (ExpireHeight u =? height); cbn; [discriminate|].
  intros H. rewrite IH by exact H. reflexivity.
Qed.

Lemma set_unstakes_same (x : Account) : set_unstakes (unstakes x) x = x.
Proof. destruct x; reflexivity. Qed.

(** X12.  [RemoveUnstaking] on a writable account with an address.  With
    exactly one unstake expiring at [height] it removes it, keeps the
    others in order and returns its amount with no error.  With none it
    returns amount 0 and the no-timer error and the account is as it
    was. *)
Theorem RemoveUnstaking_one_timer (st : store) (a : ptr) (x : Account) (height : Z)
    (addr : common.Address)
    (Ha : st !! a = Some x) (Hw : readonly x = false) (Haddr : address x = Some addr) :
  (forall u, unstakes_expiring height (unstakes x) = [u] ->
     RemoveUnstaking a height st
     = Ret (Amount u, None,
            <[a := set_unstakes (unstakes_remaining height (unstakes x)) x]> st)) /\
  (unstakes_expiring height (unstakes x) = [] ->
     RemoveUnstaking a height st = Ret (0, Some (NoUnstakingTimer addr height), st)).
Proof.
  unfold RemoveUnstaking, checkWritable. rewrite Ha, Hw, Haddr.
  rewrite RemoveUnstaking_range_spec. cbn [app].
  pose proof (length_unstakes_split height (unstakes x)) as Hlen.
  unfold len. split.
  - intros u Hu. rewrite Hu in *. cbn [length] in Hlen.
    destruct (Z.eqb_spec (Z.of_nat (length (unstakes_remaining height (unstakes x))))
                (Z.of_nat (length (unstakes x)))) as [Heq|_]; [lia|].
    destruct (Z.eqb_spec (Z.of_nat (length (unstakes_remaining height (unstakes x))))
                (Z.of_nat (length (unstakes x)) - 1)) as [_|Hne]; [|lia].
    reflexivity.
  - intros Hnone. rewrite Hnone in *. cbn [length] in Hlen.
    destruct (Z.eqb_spec (Z.of_nat (length (unstakes_remaining height (unstakes x))))
                (Z.of_nat (length (unstakes x)))) as [_|Hne]; [|lia].
    rewrite (unstakes_remaining_all _ _ Hnone), set_unstakes_same.
    rewrite insert_id by exact Ha. reflexivity.
Qed.

(** X13.  With two or more unstakes expiring at [height],
    [RemoveUnstaking] returns the too-many error, and yet it has removed
    all of them from the account; the amount it returns is that of the
    last one. *)
Theorem RemoveUnstaking_too_many (st : store) (a : ptr) (x : Account) (height : Z)
    (addr : common.Address)
    (Ha : st !! a = Some x) (Hw : readonly x = false) (Haddr : address x = Some addr)
    (Hmany : (2 <= length (unstakes_expiring height (unstakes x)))%nat) :
  RemoveUnstaking a height st
  = Ret (List.last (Amount <$> unstakes_expiring height (unstakes x)) 0,
         Some (TooManyUnstakingTimers addr height),
         <[a := set_unstakes (unstakes_remaining height (unstakes x)) x]> st).
Proof.
  unfold RemoveUnstaking, checkWritable. rewrite Ha, Hw, Haddr.
  rewrite RemoveUnstaking_range_spec. cbn [app].
  pose proof (length_unstakes_split height (unstakes x)) as Hlen.
  unfold len.
  destruct (Z.eqb_spec (Z.of_nat (length (unstakes_remaining height (unstakes x))))
              (Z.of_nat (length (unstakes x)))) as [Heq|_]; [lia|].
  destruct (Z.eqb_spec (Z.of_nat (length (unstakes_remaining height (unstakes x))))
              (Z.of_nat (length (unstakes x)) - 1)) as [Heq|_]; [lia|].
  reflexivity.
Qed.

(** X14.  [Clear] on a writable account leaves what [newAccount(nil)]
    allocates: an empty account with no voting power.  On the cleared
    account [RemoveUnbonding] and [RemoveUnstaking] panic at every height,
    where an account with an address gets their no-timer error. *)
Theorem Clear_then_timers_panic (st : store) (a : ptr) (x : Account) (height : Z)
    (Ha : st !! a = Some x) (Hw : readonly x = false) :
  Clear a st = Ret (<[a := newAccount None]> st) /\
  IsEmpty (newAccount None) = true /\
  GetVotingPower (newAccount None) = 0 /\
  RemoveUnbonding a height (<[a := newAccount None]> st) = Panic NilDereference /\
  RemoveUnstaking a height (<[a := newAccount None]> st) = Panic NilDereference.
Proof.
  split; [unfold Clear, checkWritable; rewrite Ha, Hw; reflexivity|].
  split; [reflexivity|]. split; [reflexivity|].
  split.
  - rewrite (RemoveUnbonding_unfold (<[a := newAccount None]> st) a (newAccount None)
               height (lookup_insert_eq _ _ _) eq_refl).
    reflexivity.
  - unfold RemoveUnstaking, checkWritable. rewrite lookup_insert_eq. reflexivity.
Qed.


End AccountTimers.

(** ** The chain score: the methods it offers *)

Section GetAPIFacts.
Import icon.
Context {M : Type}.

Lemma GetAPI_range_spec revision (ms : list (chainMethod M)) : forall methods j,
  (j + length ms <= length methods)%nat ->
  exists methods',
    GetAPI_range revision ms methods j
    = (methods', (j + length (List.filter (offered revision) ms))%nat) /\
    take (j + length (List.filter (offered revision) ms)) methods'
    = take j methods
      ++ ((fun m => Some (Method m)) <$> List.filter (offered revision) ms).
Proof.
  induction ms as [|m ms IH]; intros methods j Hlen; cbn [GetAPI_range List.filter].
  - exists methods. cbn. rewrite Nat.add_0_r, app_nil_r. split; reflexivity.
  - cbn [length] in Hlen. destruct (offered revision m).
    + destruct (IH (<[j := Some (Method m)]> methods) (S j)) as (methods' & Hrun & Htake).
      { rewrite length_insert. lia. }
      exists methods'. cbn [length fmap list_fmap].
      replace (j + S (length (List.filter (offered revision) ms)))%nat
        with (S j + length (List.filter (offered revision) ms))%nat by lia.
      split; [exact Hrun|]. rewrite Htake.
      rewrite (take_S_r _ _ (Some (Method m)))
        by (apply list_lookup_insert_eq; lia).
      rewrite take_insert_ge by lia. rewrite <- app_assoc. reflexivity.
    + destruct (IH methods j) as (methods' & Hrun & Htake); [lia|].
      exists methods'. split; assumption.
Qed.

(** X16.  [GetAPI] offers exactly the methods of the table whose revision
    range holds the revision of the chain ([minVer <= revision], and
    [revision <= maxVer] unless [maxVer] is 0), in the order of the table
    and each once; the slice it hands on has no nil entry. *)
Theorem GetAPI_offers_in_range revision (table : list (chainMethod M)) :
  GetAPI revision table
  = (fun m => Some (Method m)) <$> List.filter (offered revision) table.
Proof.
  unfold GetAPI.
  destruct (GetAPI_range_spec revision table (replicate (length table) None) 0)
    as (methods' & Hrun & Htake).
  { rewrite length_replicate. lia. }
  rewrite Hrun. cbn [Nat.add] in *. rewrite Htake, take_0. reflexivity.
Qed.

End GetAPIFacts.

Section ChainMethodsFacts.
Import icon.

(** X17.  With the table of the chain score, every revision from 0 on is
    offered all six methods, in the order of the table, and a negative
    revision is offered none. *)
Theorem GetAPI_chainMethods revision :
  (0 <= revision ->
     GetAPI revision chainMethods
     = Some <$> ["setStake"; "getStake"; "setDelegation"; "getDelegation";
                 "registerPRep"; "getPRep"]) /\
  (revision < 0 -> GetAPI revision chainMethods = []).
Proof.
  rewrite GetAPI_offers_in_range. unfold chainMethods, offered.
  cbn [List.filter minVer maxVer Method].
  destruct (Z.leb_spec 0 revision) as [Hle|Hlt]; cbn; split; intros; try lia; reflexivity.
Qed.

End ChainMethodsFacts.

(** ** The bytes of a vote list when encoding fails *)

Section BytesMore.
Import consensus consensus.voteList.
Context `{C : Codec} `{CS : crypto.Suite}.

(** X18.  [Bytes] swallows the error of the codec: a list that cannot be
    encoded has no bytes, and its [Hash] is the digest of the empty input.
    All such lists have the same [Hash], and feeding their [Bytes] to
    [NewVoteListFromBytes] is decoding the empty input. *)
Theorem Bytes_swallows_error vl1 vl2
    (H1 : MarshalToBytes vl1 = None) (H2 : MarshalToBytes vl2 = None) :
  Bytes vl1 = [] /\
  Hash vl1 = crypto.SHA3Sum256 [] /\
  Hash vl1 = Hash vl2 /\
  NewVoteListFromBytes (Bytes vl1) = NewVoteListFromBytes [].
Proof.
  unfold Hash, Bytes. rewrite H1, H2. repeat split.
Qed.

End BytesMore.

(** ** The further properties on concrete inputs *)

Section MoreExamples.
Import consensus consensus.voteList fixture.

(** X3, on two validators: the second signature is nobody's. *)
Lemma Verify_first_signature_decides_witness :
  fst (Verify (mk 0 None [sig_of x01; bad_sig]) (block 10 two)) = None.
Proof.
  exact (Verify_first_signature_decides (mk 0 None [sig_of x01; bad_sig])
           (block 10 two) (sig_of x01) [bad_sig]
           ltac:(discriminate) eq_refl eq_refl).
Defined.

(** X4, on four validators at height 10. *)
Lemma Verify_no_signature_witness :
  Verify (mk 0 None []) (block 10 four)
  = (Some (InsufficientVotes 0 4), [EvNextValidators; EvLen; EvLen]).
Proof.
  apply (Verify_no_signature (mk 0 None []) (block 10 four)).
  - discriminate.
  - vm_compute. split; discriminate.
  - reflexivity.
Defined.

(** X5, on a batch of two votes for one block. *)
Lemma newVoteList_returns_whole_batch_witness :
  Signatures (mk 1 (Some [x01]) [[x01]; [x02]]) =
  Signature <$> [mk_signedBase (vote.mk 3 1 voteTypePrecommit [xaa] (Some [x01])) [x01] None None;
                 mk_signedBase (vote.mk 3 1 voteTypePrecommit [xaa] (Some [x01])) [x02] None None].
Proof.
  apply (newVoteList_returns_whole_batch
           [mk_signedBase (vote.mk 3 1 voteTypePrecommit [xaa] (Some [x01])) [x01] None None;
            mk_signedBase (vote.mk 3 1 voteTypePrecommit [xaa] (Some [x01])) [x02] None None]
           (mk 1 (Some [x01]) [[x01]; [x02]])).
  reflexivity.
Defined.

(** X18, with a codec that always fails. *)
Lemma Bytes_swallows_error_witness :
  @Hash failing_codec suite (mk 0 None [sig_of x01])
  = @Hash failing_codec suite (mk 7 None []).
Proof.
  apply (@Bytes_swallows_error failing_codec suite (mk 0 None [sig_of x01]) (mk 7 None [])).
  - reflexivity.
  - reflexivity.
Defined.

End MoreExamples.

Section MoreAccountExamples.
Import icstate fixture.

(** X6, slashing 4 off a stake of 10. *)
Lemma SlashStake_within_stake_witness :
  SlashStake 0%nat 4 {[0%nat := account false 10]}
  = Ret (None, <[0%nat := set_stake (10 - 4) (account false 10)]>
                 {[0%nat := account false 10]}).
Proof.
  apply (SlashStake_within_stake {[0%nat := account false 10]} 0%nat
           (account false 10) 4).
  - reflexivity.
  - reflexivity.
  - cbn. lia.
Defined.

(** X7, on a frozen account. *)
Lemma GetSnapshot_frozen_copy_witness :
  GetSnapshot 0%nat {[0%nat := account true 10]} = Ret (0%nat, {[0%nat := account true 10]}).
Proof.
  apply (@GetSnapshot_frozen_copy containers containers_laws
           {[0%nat := account true 10]} 0%nat (account true 10)).
  - reflexivity.
  - reflexivity.
Defined.

(** X8, on the snapshot of a writable account. *)
Lemma GetSnapshot_isolated_witness :
  match GetSnapshot 0%nat {[0%nat := account false 10]} with
  | Ret (c, st') => SetStake c 5 st' = Panic NotWritable
  | Panic _ => False
  end.
Proof.
  destruct (GetSnapshot 0%nat {[0%nat := account false 10]}) as [[c st']|p] eqn:Hsnap.
  - apply (GetSnapshot_isolated {[0%nat := account false 10]} st' 0%nat c
             (account false 10) 5).
    + reflexivity.
    + reflexivity.
    + exact Hsnap.
    + lia.
  - unfold GetSnapshot, Clone in Hsnap.
    rewrite lookup_singleton_eq in Hsnap. cbn in Hsnap.
    rewrite lookup_insert_eq in Hsnap. discriminate Hsnap.
Defined.

(** X9, copying a frozen account into a writable one. *)
Lemma Set_makes_Equal_witness :
  exists st' z,
    Set_ 1%nat 0%nat {[0%nat := account true 10; 1%nat := account false 3]} = Ret st' /\
    st' !! 1%nat = Some z /\
    (forall p, p <> 1%nat ->
       st' !! p
       = ({[0%nat := account true 10; 1%nat := account false 3]} : store) !! p) /\
    readonly z = readonly (account false 3) /\
    address z = address (account true 10) /\
    stake z = stake (account true 10) /\
    delegating z = delegating (account true 10) /\
    bonding z = bonding (account true 10) /\
    unbonding z = unbonding (account true 10) /\
    Equal 0%nat (Impl_Account 1%nat) st' = Ret true.
Proof.
  apply (@Set_makes_Equal containers containers_laws
           {[0%nat := account true 10; 1%nat := account false 3]} 1%nat 0%nat
           (account false 3) (account true 10)).
  - reflexivity.
  - reflexivity.
  - reflexivity.
Defined.

(** X10, the unbond expiring at 100 of an account with an address. *)
Lemma RemoveUnbonding_drops_expired_witness :
  @RemoveUnbonding slices 0%nat 100 {[0%nat := timers false (Some (addr_of x01))]}
  = Ret (None,
         <[0%nat := @set_unbonds slices [Unbond.mk (addr_of x03) 4 200] (7 - (3 + 0))
                      (timers false (Some (addr_of x01)))]>
           {[0%nat := timers false (Some (addr_of x01))]}).
Proof.
  apply (@RemoveUnbonding_drops_expired slices
           {[0%nat := timers false (Some (addr_of x01))]} 0%nat
           (timers false (Some (addr_of x01))) 100).
  - reflexivity.
  - reflexivity.
  - discriminate.
Defined.

(** X11, after that removal. *)
Lemma RemoveUnbonding_keeps_total_witness :
  exists y,
    (<[0%nat := @set_unbonds slices [Unbond.mk (addr_of x03) 4 200] 4
                  (timers false (Some (addr_of x01)))]>
       {[0%nat := timers false (Some (addr_of x01))]} : gmap nat _) !! 0%nat = Some y /\
    unbonding y = @unbond_total (unbonds y).
Proof.
  destruct (@RemoveUnbonding_keeps_total slices
              {[0%nat := timers false (Some (addr_of x01))]}
              (<[0%nat := @set_unbonds slices [Unbond.mk (addr_of x03) 4 200] 4
                            (timers false (Some (addr_of x01)))]>
                 {[0%nat := timers false (Some (addr_of x01))]})
              0%nat (timers false (Some (addr_of x01))) 100 (addr_of x01))
    as (y & Hy & _ & _ & Hsum & _).
  - reflexivity.
  - reflexivity.
  - reflexivity.
  - reflexivity.
  - exists y. split; [exact Hy|]. apply Hsum. reflexivity.
Defined.

(** X12, the one unstake expiring at 200. *)
Lemma RemoveUnstaking_one_timer_witness :
  @RemoveUnstaking slices 0%nat 200 {[0%nat := timers false (Some (addr_of x01))]}
  = Ret (6, None,
         <[0%nat := @set_unstakes slices [(5, 100); (7, 100)]
                      (timers false (Some (addr_of x01)))]>
           {[0%nat := timers false (Some (addr_of x01))]}).
Proof.
  destruct (@RemoveUnstaking_one_timer slices
              {[0%nat := timers false (Some (addr_of x01))]} 0%nat
              (timers false (Some (addr_of x01))) 200 (addr_of x01))
    as [Hone _].
  - reflexivity.
  - reflexivity.
  - reflexivity.
  - apply (Hone (6, 200)). reflexivity.
Defined.

(** X13, the two unstakes expiring at 100. *)
Lemma RemoveUnstaking_too_many_witness :
  @RemoveUnstaking slices 0%nat 100 {[0%nat := timers false (Some (addr_of x01))]}
  = Ret (7, Some (TooManyUnstakingTimers (addr_of x01) 100),
         <[0%nat := @set_unstakes slices [(6, 200)]
                      (timers false (Some (addr_of x01)))]>
           {[0%nat := timers false (Some (addr_of x01))]}).
Proof.
  apply (@RemoveUnstaking_too_many slices
           {[0%nat := timers false (Some (addr_of x01))]} 0%nat
           (timers false (Some (addr_of x01))) 100 (addr_of x01)).
  - reflexivity.
  - reflexivity.
  - reflexivity.
  - cbn. lia.
Defined.

(** X14, clearing that account. *)
Lemma Clear_then_timers_panic_witness :
  @Clear slices 0%nat {[0%nat := timers false (Some (addr_of x01))]}
  = Ret (<[0%nat := @newAccount slices None]>
           {[0%nat := timers false (Some (addr_of x01))]}).
Proof.
  apply (@Clear_then_timers_panic slices
           {[0%nat := timers false (Some (addr_of x01))]} 0%nat
           (timers false (Some (addr_of x01))) 100).
  - reflexivity.
  - reflexivity.
Defined.


End MoreAccountExamples.

(** ** Accounts: a clone is writable *)

Section CloneWritable.
Import icstate.
Context `{CT : Containers}.

(** X19.  [Clone] does not copy the read-only flag: the clone of any
    account, frozen or not, is writable.  [SetStake] on the clone succeeds
    and the account it was cloned from keeps its stake and stays as it
    was. *)
Theorem Clone_is_writable (st st' : store) (a c : ptr) (x : Account) (v : Z)
    (Ha : st !! a = Some x) (Hclone : Clone a st = Ret (c, st')) (Hv : 0 <= v) :
  exists y st'',
    st' !! c = Some y /\
    readonly y = false /\
    SetStake c v st' = Ret (None, st'') /\
    stake <$> st'' !! c = Some v /\
    st'' !! a = Some x.
Proof.
  unfold Clone in Hclone. rewrite Ha in Hclone.
  set (c0 := fresh (dom st)) in *.
  assert (Hfresh : st !! c0 = None) by (apply not_elem_of_dom, is_fresh).
  assert (Hne : c0 <> a) by (intros ->; congruence).
  injection Hclone as <- <-.
  eexists _, _. split; [apply lookup_insert_eq|].
  split; [reflexivity|].
  unfold SetStake, checkWritable. rewrite lookup_insert_eq. cbn [readonly].
  destruct (Sign v =? -1) eqn:Hs; [apply Sign_negative in Hs; lia|].
  split; [reflexivity|].
  split; [rewrite lookup_insert_eq; reflexivity|].
  rewrite !lookup_insert_ne by exact Hne. exact Ha.
Qed.

End CloneWritable.

Section CloneWritableExample.
Import icstate fixture.

(** X19, cloning a frozen account. *)
Lemma Clone_is_writable_witness :
  match Clone 0%nat {[0%nat := account true 10]} with
  | Ret (c, st') =>
      exists y st'',
        st' !! c = Some y /\
        readonly y = false /\
        SetStake c 5 st' = Ret (None, st'') /\
        stake <$> st'' !! c = Some 5 /\
        st'' !! 0%nat = Some (account true 10)
  | Panic _ => False
  end.
Proof.
  destruct (Clone 0%nat {[0%nat := account true 10]}) as [[c st']|p] eqn:Hclone.
  - apply (Clone_is_writable {[0%nat := account true 10]} st' 0%nat c
             (account true 10) 5).
    + reflexivity.
    + exact Hclone.
    + lia.
  - unfold Clone in Hclone. rewrite lookup_singleton_eq in Hclone.
    discriminate Hclone.
Defined.

End CloneWritableExample.
